(** * Batching rules for view operators (functorch/csrc/BatchRulesViews.cpp)

    A shallow embedding of the vmap batching rules for [unsqueeze], [repeat],
    [diag], [_unsafe_view], [flip], the [trace] decomposition and the
    [resize_] plumbing, over a strided model of the host library's tensors:
    a tensor is a storage location, a storage offset, sizes and strides, and
    the storages live in a heap.  View operators only rewrite the geometry;
    operators that produce new data allocate a fresh storage.  Elements are
    64-bit integers; sizes, strides and dimensions stay far from the 64-bit
    range and are taken in [Z]. *)

From stdpp Require Import base tactics option list numbers strings.
From Stdlib Require Import ZArith Lia.

Open Scope Z_scope.

(** ** Errors and results *)

(** The ways a call can end without a value. *)
Inductive error : Type :=
| runtime_error (msg : string)        (* throw std::runtime_error(msg) *)
| torch_check (msg : string)          (* TORCH_CHECK(false, msg) *)
| index_error (msg : string)          (* TORCH_CHECK_INDEX(false, msg) *)
| internal_assert (msg : string)      (* TORCH_INTERNAL_ASSERT(false, msg) *)
| undefined_behaviour (what : string) (* no defined C++ behaviour *).

Inductive result (A : Type) : Type :=
| Ok (a : A)
| Err (e : error).
Arguments Ok {A} a.
Arguments Err {A} e.

#[global] Instance result_ret : MRet result := fun A a => Ok a.
#[global] Instance result_bind : MBind result := fun A B f m =>
  match m with
  | Ok a => f a
  | Err e => Err e
  end.

(** Usage errors are raised for the caller to handle; a failed internal
    assertion reports a broken invariant. *)
Definition is_usage_error (e : error) : bool :=
  match e with
  | runtime_error _ | torch_check _ | index_error _ => true
  | internal_assert _ | undefined_behaviour _ => false
  end.

(** ** Tensors *)

(** The geometry of a tensor: which storage it addresses and how. *)
Record Tensor : Type := mkTensor {
  storage : nat;
  storage_offset : Z;
  sizes : list Z;
  strides : list Z
}.

(** The storages, by location; a fresh storage goes at the end. *)
Abbreviation heap := (list (list Z)).

Definition dim (t : Tensor) : Z := Z.of_nat (length (sizes t)).

Fixpoint dot (idx strd : list Z) : Z :=
  match idx, strd with
  | i :: idx', s :: strd' => i * s + dot idx' strd'
  | _, _ => 0
  end.

Definition flat_index (t : Tensor) (idx : list Z) : Z :=
  storage_offset t + dot idx (strides t).

(** The element of [t] at the index [idx], read through its strides. *)
Definition read (h : heap) (t : Tensor) (idx : list Z) : option Z :=
  data ← h !! storage t;
  let p := flat_index t idx in
  if decide (0 <= p) then data !! Z.to_nat p else None.

(** All indices of a shape, in row-major order. *)
Fixpoint all_indices (shape : list Z) : list (list Z) :=
  match shape with
  | [] => [[]]
  | n :: rest => i ← seqZ 0 n; (fun idx => i :: idx) <$> all_indices rest
  end.

Definition in_range (shape idx : list Z) : Prop :=
  Forall2 (fun i n => 0 <= i < n) idx shape.

(** Row-major strides, a dimension of size 0 counting as 1: the stride of
    an axis is the product of the sizes after it. *)
Definition row_size (shape : list Z) : Z :=
  foldr (fun n acc => Z.max n 1 * acc) 1 shape.

Fixpoint contiguous_strides (shape : list Z) : list Z :=
  match shape with
  | [] => []
  | _ :: rest => row_size rest :: contiguous_strides rest
  end.

Definition numel (shape : list Z) : Z := foldr Z.mul 1 shape.

Definition is_contiguous (t : Tensor) : bool :=
  bool_decide (strides t = contiguous_strides (sizes t)).

(** A tensor is well formed in a heap when its geometry is consistent and
    every index of its shape addresses an element of its storage. *)
Definition wfb (h : heap) (t : Tensor) : bool :=
  bool_decide (length (strides t) = length (sizes t))
  && bool_decide (storage t < length h)%nat
  && forallb (fun n => bool_decide (0 <= n)) (sizes t)
  && forallb (fun idx => bool_decide (is_Some (read h t idx))) (all_indices (sizes t)).

Definition wf (h : heap) (t : Tensor) : Prop := wfb h t = true.

(** The contents of a tensor, as its shape and its elements in row-major
    order. *)
Record Dense : Type := mkDense { shape : list Z; elems : list Z }.

Definition to_dense (h : heap) (t : Tensor) : option Dense :=
  es ← mapM (read h t) (all_indices (sizes t));
  Some (mkDense (sizes t) es).

(** Stacking equally shaped slots along a new leading axis. *)
Definition stack (inner : list Z) (slots : list Dense) : Dense :=
  mkDense (Z.of_nat (length slots) :: inner) (slots ≫= elems).

(** A new tensor over a fresh storage holding [data]. *)
Definition new_tensor (h : heap) (shape : list Z) (data : list Z) : Tensor * heap :=
  (mkTensor (length h) 0 shape (contiguous_strides shape), h ++ [data]).

(** A new tensor whose element at [idx] is [f idx]; the call has no defined
    behaviour when [f] reads outside a storage. *)
Definition tabulate (h : heap) (shape : list Z) (f : list Z -> option Z)
  : result (Tensor * heap) :=
  match mapM f (all_indices shape) with
  | Some data => Ok (new_tensor h shape data)
  | None => Err (undefined_behaviour "read outside of a storage")
  end.

(** ** Dimension wrapping and vectors *)

(** Modelled from the spec: the host library's [maybe_wrap_dim] (not under
    src/), the standard negative-index wrap: a dimension in
    [[-dim_post_expr, dim_post_expr)] is brought into [[0, dim_post_expr)],
    anything else is an index error; a rank of 0 is treated as rank 1. *)
Definition maybe_wrap_dim (d dim_post_expr : Z) : result Z :=
  let dim_post_expr := if decide (dim_post_expr <= 0) then 1 else dim_post_expr in
  let min := - dim_post_expr in
  let max := dim_post_expr - 1 in
  if decide (d < min \/ d > max) then Err (index_error "Dimension out of range")
  else if decide (d < 0) then Ok (d + dim_post_expr)
  else Ok d.

(** [v.insert(v.begin() + pos, x)]: defined only for [0 <= pos <= v.size()]. *)
Definition vec_insert (v : list Z) (pos : Z) (x : Z) : result (list Z) :=
  if decide (0 <= pos <= Z.of_nat (length v))
  then Ok (take (Z.to_nat pos) v ++ x :: drop (Z.to_nat pos) v)
  else Err (undefined_behaviour "insert outside of the vector").

(** [v.erase(v.begin() + pos)] for a position known to be in range. *)
Definition vec_erase (v : list Z) (pos : Z) : list Z :=
  take (Z.to_nat pos) v ++ drop (S (Z.to_nat pos)) v.

Definition vec_at (v : list Z) (pos : Z) : Z :=
  default 0 (v !! Z.to_nat pos).

(** [*o] on an optional: no defined behaviour when it is empty. *)
Definition deref (o : option Z) : result Z :=
  match o with
  | Some v => Ok v
  | None => Err (undefined_behaviour "dereference of an empty optional")
  end.

(** [t.size(d)], the dimension wrapped without the rank-0 exception. *)
Definition wrap_strict (d n : Z) : result Z :=
  if decide (n <= 0) then Err (index_error "tensor has no dimensions")
  else maybe_wrap_dim d n.

Definition size (t : Tensor) (d : Z) : result Z :=
  d' ← wrap_strict d (dim t); Ok (vec_at (sizes t) d').


Definition insert_at (v : list Z) (pos : Z) (x : Z) : list Z :=
  take (Z.to_nat pos) v ++ x :: drop (Z.to_nat pos) v.

(** ** The host library's view operators

    They return a tensor over the same storage with another geometry. *)

(** Modelled from the spec: the host library's [unsqueeze] (not under src/),
    which inserts a new singleton dimension at the given axis, wrapped over
    rank + 1; the new stride is the one a contiguous tensor would have. *)
Definition unsqueeze (t : Tensor) (d : Z) : result Tensor :=
  d ← maybe_wrap_dim d (dim t + 1);
  let new_stride :=
    if decide (d >= dim t) then 1 else vec_at (sizes t) d * vec_at (strides t) d in
  Ok (mkTensor (storage t) (storage_offset t)
        (insert_at (sizes t) d 1) (insert_at (strides t) d new_stride)).

(** Modelled from the spec: the host library's [movedim] (not under src/):
    the axis [src] is taken out and put back at position [dst]; the other
    axes keep their order.  A tensor of rank 0 is returned as it is. *)
Definition move (v : list Z) (src dst : Z) : list Z :=
  insert_at (vec_erase v src) dst (vec_at v src).

Definition movedim (t : Tensor) (src dst : Z) : result Tensor :=
  src ← maybe_wrap_dim src (dim t);
  dst ← maybe_wrap_dim dst (dim t);
  if decide (dim t = 0) then Ok t
  else Ok (mkTensor (storage t) (storage_offset t)
             (move (sizes t) src dst) (move (strides t) src dst)).

(** The number of elements of the diagonal with the given offset of a
    matrix of [size1] rows and [size2] columns. *)
Definition diag_len (size1 size2 offset : Z) : Z :=
  if decide (offset >= 0) then Z.max (Z.min size1 (size2 - offset)) 0
  else Z.max (Z.min (size1 + offset) size2) 0.

(** Modelled from the spec: the host library's [diagonal] (not under src/),
    the view of the diagonal with the given offset over the axes [dim1] and
    [dim2]: both axes are dropped and the diagonal is appended as the last
    axis, its stride the sum of the two strides. *)
Definition diagonal (t : Tensor) (offset dim1_ dim2_ : Z) : result Tensor :=
  let nDims := dim t in
  dim1 ← maybe_wrap_dim dim1_ nDims;
  dim2 ← maybe_wrap_dim dim2_ nDims;
  if decide (dim1 = dim2) then Err (torch_check "diagonal dimensions cannot be identical")
  else if decide (nDims = 0) then Err (index_error "tensor has no dimensions")
  else
    let size1 := vec_at (sizes t) dim1 in
    let size2 := vec_at (sizes t) dim2 in
    let stride1 := vec_at (strides t) dim1 in
    let stride2 := vec_at (strides t) dim2 in
    let diag_size := diag_len size1 size2 offset in
    let storage_offset' :=
      if decide (diag_size = 0) then storage_offset t
      else if decide (offset >= 0) then storage_offset t + offset * stride2
      else storage_offset t - offset * stride1 in
    let drop2 v := vec_erase (vec_erase v (Z.max dim1 dim2)) (Z.min dim1 dim2) in
    Ok (mkTensor (storage t) storage_offset'
          (drop2 (sizes t) ++ [diag_size])
          (drop2 (strides t) ++ [stride1 + stride2])).

(** Modelled from the spec: the host library's [select] (not under src/),
    indexing one slot of an axis: the axis is dropped and the storage
    offset moves to the slot. *)
Definition select (t : Tensor) (d index : Z) : result Tensor :=
  d ← wrap_strict d (dim t);
  let n := vec_at (sizes t) d in
  if decide (index < - n \/ index >= n) then Err (index_error "select(): index out of range")
  else
    let index := if decide (index < 0) then index + n else index in
    Ok (mkTensor (storage t) (storage_offset t + index * vec_at (strides t) d)
          (vec_erase (sizes t) d) (vec_erase (strides t) d)).

(** Modelled from the spec: the host library's [_unsafe_view] (not under
    src/), which reinterprets the shape of a tensor and is valid only when
    the tensor is contiguous; the number of elements must agree. *)
Definition _unsafe_view (t : Tensor) (size : list Z) : result Tensor :=
  if negb (forallb (fun n => bool_decide (0 <= n)) size)
  then Err (torch_check "invalid shape dimension")
  else if negb (bool_decide (numel size = numel (sizes t)))
  then Err (torch_check "shape is invalid for input size")
  else if negb (is_contiguous t)
  then Err (torch_check "view size is not compatible with input tensor's size and stride")
  else Ok (mkTensor (storage t) (storage_offset t) size (contiguous_strides size)).

(** ** The host library's operators that produce new data *)

(** 64-bit two's complement addition, as the reductions accumulate. *)
Definition wrap64 (x : Z) : Z := (x + 2 ^ 63) mod 2 ^ 64 - 2 ^ 63.
Definition add64 (a b : Z) : Z := wrap64 (a + b).

(** Modelled from the spec: the host library's [clone] (not under src/), a
    materialized copy: the elements of the tensor in a storage of their
    own, laid out contiguously. *)
Definition clone (t : Tensor) (h : heap) : result (Tensor * heap) :=
  tabulate h (sizes t) (read h t).

(** Modelled from the spec: the host library's [diag_embed] (not under
    src/) over the last two axes of the result: the last axis of the input
    becomes the diagonal with the given offset of a square matrix of zeros,
    and the leading axes are kept.  [embed_elem] is the element at an index
    of the result, [lead] the number of leading axes. *)
Definition embed_elem (h : heap) (t : Tensor) (lead : nat) (offset : Z) (idx : list Z)
  : option Z :=
  let i := vec_at idx (Z.of_nat lead) in
  let j := vec_at idx (Z.of_nat lead + 1) in
  if decide (j - i = offset) then read h t (take lead idx ++ [Z.min i j]) else Some 0.

Definition diag_embed (t : Tensor) (offset : Z) (h : heap) : result (Tensor * heap) :=
  n ← size t (-1);
  let lead := (length (sizes t) - 1)%nat in
  let new_dim_len := Z.abs offset + n in
  tabulate h (take lead (sizes t) ++ [new_dim_len; new_dim_len])
    (embed_elem h t lead offset).

(** Modelled from the spec: the host library's [diag] (not under src/): a
    rank-1 input builds the square matrix with the input on the diagonal of
    the given offset, a rank-2 input extracts that diagonal (empty when the
    offset lies beyond the matrix), and any other rank is rejected. *)
Definition at_diag (t : Tensor) (offset : Z) (h : heap) : result (Tensor * heap) :=
  match sizes t with
  | [n] =>
    let sz := n + Z.abs offset in
    tabulate h [sz; sz]
      (fun idx =>
         let i := vec_at idx 0 in
         let j := vec_at idx 1 in
         if decide (j - i = offset) then read h t [Z.min i j] else Some 0)
  | [n; m] =>
    let sz := diag_len n m offset in
    tabulate h [sz]
      (fun idx =>
         let k := vec_at idx 0 in
         read h t [k + Z.max (- offset) 0; k + Z.max offset 0])
  | _ => Err (torch_check "matrix or a vector expected")
  end.

(** Modelled from the spec: the host library's [repeat] (not under src/),
    tiling a tensor along each axis by the factor given for it; the tensor
    is first given leading singleton axes up to the number of factors. *)
Definition repeat (t : Tensor) (repeats : list Z) (h : heap) : result (Tensor * heap) :=
  if decide (length repeats < length (sizes t))%nat
  then Err (torch_check "Number of dimensions of repeat dims can not be smaller than number of dimensions of tensor")
  else if negb (forallb (fun n => bool_decide (0 <= n)) repeats)
  then Err (torch_check "Trying to create tensor with negative dimension")
  else
    let num_new_dimensions := (length repeats - length (sizes t))%nat in
    let padded_size := replicate num_new_dimensions 1 ++ sizes t in
    let target_size := zip_with Z.mul padded_size repeats in
    tabulate h target_size
      (fun idx => read h t (drop num_new_dimensions (zip_with Z.modulo idx padded_size))).

(** Modelled from the spec: the host library's [flip] (not under src/),
    reversing the contents along the given axes, each wrapped over the rank
    and named once. *)
Definition flip (t : Tensor) (dims : list Z) (h : heap) : result (Tensor * heap) :=
  ds ← mapM (fun d => maybe_wrap_dim d (dim t)) dims;
  if negb (bool_decide (NoDup ds))
  then Err (torch_check "dim appears multiple times in the list of dims")
  else
    tabulate h (sizes t)
      (fun idx =>
         read h t
           (imap (fun k i =>
                    if bool_decide (Z.of_nat k ∈ ds) then vec_at (sizes t) (Z.of_nat k) - 1 - i
                    else i) idx)).

(** Modelled from the spec: the host library's [sum] over all elements (not
    under src/): a rank-0 tensor holding the sum. *)
Definition sum (t : Tensor) (h : heap) : result (Tensor * heap) :=
  match mapM (read h t) (all_indices (sizes t)) with
  | Some es => Ok (new_tensor h [] [foldl add64 0 es])
  | None => Err (undefined_behaviour "read outside of a storage")
  end.

(** ** The batch-dimension utility layer *)

(** Modelled from the spec: [rankWithoutBatchDim] (BatchRulesHelper, not
    under src/): the rank minus one if the batch dimension is present, else
    the rank. *)
Definition rankWithoutBatchDim (tensor : Tensor) (maybe_batch_dim : option Z) : Z :=
  match maybe_batch_dim with
  | Some _ => dim tensor - 1
  | None => dim tensor
  end.

(** Modelled from the spec: [moveBatchDimToFront] (BatchRulesHelper, not
    under src/): the tensor itself if the batch dimension is absent or
    already at axis 0, otherwise a view with that axis moved to position 0. *)
Definition moveBatchDimToFront (tensor : Tensor) (maybe_batch_dim : option Z)
  : result Tensor :=
  match maybe_batch_dim with
  | None => Ok tensor
  | Some b => if decide (b = 0) then Ok tensor else movedim tensor b 0
  end.

(** Modelled from the spec: [getPhysicalDim] (BatchRulesHelper, not under
    src/): the logical dimension is wrapped over the rank without the batch
    dimension, taken to be at the front, and then shifted by one when a
    batch dimension is present. *)
Definition getPhysicalDim (tensor : Tensor) (has_batch_dim : bool) (logical_dim : Z)
  : result Z :=
  let bdim := if has_batch_dim then Some 0 else None in
  let rank := rankWithoutBatchDim tensor bdim in
  wrapped_dim ← maybe_wrap_dim logical_dim rank;
  if has_batch_dim then Ok (wrapped_dim + 1) else Ok wrapped_dim.

(** ** The batching rules *)

Definition unsqueeze_batch_rule (self : Tensor) (self_bdim : option Z) (d : Z)
  : result (Tensor * option Z) :=
  self_ ← moveBatchDimToFront self self_bdim;
  let rank := rankWithoutBatchDim self self_bdim in
  w ← maybe_wrap_dim d (rank + 1);
  let d := w + 1 in
  r ← unsqueeze self_ d;
  Ok (r, Some 0).

(** The loop [while (self_.dim() < n) self_ = self_.unsqueeze(1)].  Every
    turn adds one axis, so the loop takes at most [n] turns and the rule
    runs it with that much fuel. *)
Fixpoint repeat_pad (fuel : nat) (self_ : Tensor) (n : Z) : result Tensor :=
  if decide (dim self_ < n) then
    match fuel with
    | O => Err (undefined_behaviour "out of fuel")
    | S fuel' => self' ← unsqueeze self_ 1; repeat_pad fuel' self' n
    end
  else Ok self_.

Definition repeat_batch_rule (self : Tensor) (self_bdim : option Z) (sizes : list Z)
  (h : heap) : result ((Tensor * option Z) * heap) :=
  let sizes_with_bdim := 1 :: sizes in
  self_ ← moveBatchDimToFront self self_bdim;
  self_ ← repeat_pad (length sizes_with_bdim) self_ (Z.of_nat (length sizes_with_bdim));
  '(r, h') ← repeat self_ sizes_with_bdim h;
  Ok ((r, Some 0), h').

Definition diag_batch_rule (input : Tensor) (input_bdim : option Z) (offset : Z)
  (h : heap) : result ((Tensor * option Z) * heap) :=
  match input_bdim with
  | None => '(r, h') ← at_diag input offset h; Ok ((r, None), h')
  | Some _ =>
    input_ ← moveBatchDimToFront input input_bdim;
    let rank := rankWithoutBatchDim input input_bdim in
    if decide (rank = 1) then
      '(r, h') ← diag_embed input_ offset h; Ok ((r, Some 0), h')
    else if decide (rank = 2) then
      moved ← movedim input_ 0 (-1);
      view ← diagonal moved offset 0 1;
      '(r, h') ← clone view h;
      Ok ((r, Some (rank - 2)), h')
    else Err (runtime_error "Passed in an invalid shape to at::diag")
  end.

Definition _unsafe_view_batch_rule (self : Tensor) (self_bdim : option Z)
  (size_ : list Z) : result (Tensor * option Z) :=
  b ← deref self_bdim;
  n ← size self b;
  view_size ← vec_insert size_ b n;
  r ← _unsafe_view self view_size;
  Ok (r, self_bdim).

Definition trace_decomp (self : Tensor) (h : heap) : result (Tensor * heap) :=
  d ← diagonal self 0 0 1;
  sum d h.

Definition flip_batch_rule (self : Tensor) (self_bdim : option Z) (dims : list Z)
  (h : heap) : result ((Tensor * option Z) * heap) :=
  self_ ← moveBatchDimToFront self self_bdim;
  new_dims ← mapM (fun i => getPhysicalDim self true i) dims;
  '(r, h') ← flip self_ new_dims h;
  Ok ((r, Some 0), h').

(** ** The operators the rules stand in for *)

(** Modelled from the spec: the host library's native [trace] (not under
    src/), the sum of the main diagonal of a matrix. *)
Definition at_trace (t : Tensor) (h : heap) : result (Tensor * heap) :=
  match sizes t with
  | [n; m] =>
    match mapM (fun i => read h t [i; i]) (seqZ 0 (Z.min n m)) with
    | Some es => Ok (new_tensor h [] [foldl add64 0 es])
    | None => Err (undefined_behaviour "read outside of a storage")
    end
  | _ => Err (torch_check "trace: expected a matrix")
  end.

(** ** Wrappers and the in-place resize

    [resize_] mutates its receiver, so here tensors are referred to by
    handle: a plain tensor is a handle into the table of geometries, a
    batched tensor is a handle into the table of wrappers.  One level of
    wrapping is modelled: the value of a wrapper is a plain tensor. *)

Module Resize.

Inductive MemoryFormat : Type :=
| Contiguous
| Preserve
| ChannelsLast
| ChannelsLast3d.

Inductive TensorRef : Type :=
| PlainRef (hnd : nat)
| BatchedRef (hnd : nat).

(** A wrapper: the wrapped value, its batch dimension and vmap level, and
    the cached sizes and strides the wrapper shows to its users. *)
Record BatchedTensorImpl : Type := mkBatched {
  value_ : nat;
  bdim_ : Z;
  level_ : Z;
  sizes_ : list Z;
  strides_ : list Z
}.

(** The state the plumbing works in: the storages, the plain tensors and
    the wrappers by handle, the stack of vmap levels (innermost last),
    whether the batching key is excluded from dispatch, and what newly
    acquired memory happens to hold. *)
Record World : Type := mkWorld {
  storages : heap;
  tensors : list Tensor;
  wrappers : list BatchedTensorImpl;
  dynamic_layers : list Z;
  batched_key_excluded : bool;
  uninit : nat -> Z
}.

Definition set_storages (w : World) (s : heap) : World :=
  mkWorld s (tensors w) (wrappers w) (dynamic_layers w) (batched_key_excluded w) (uninit w).
Definition set_tensors (w : World) (ts : list Tensor) : World :=
  mkWorld (storages w) ts (wrappers w) (dynamic_layers w) (batched_key_excluded w) (uninit w).
Definition set_wrappers (w : World) (ws : list BatchedTensorImpl) : World :=
  mkWorld (storages w) (tensors w) ws (dynamic_layers w) (batched_key_excluded w) (uninit w).
Definition set_excluded (w : World) (b : bool) : World :=
  mkWorld (storages w) (tensors w) (wrappers w) (dynamic_layers w) b (uninit w).

(** Modelled from the spec: [maybeCurrentDynamicLayer] (not under src/),
    the current nesting level if any: the innermost layer of the stack. *)
Definition maybeCurrentDynamicLayer (w : World) : option Z :=
  last (dynamic_layers w).

(** Modelled from the spec: [unwrapTensorAtLevel] (not under src/): a
    wrapper of that level gives its value and batch dimension, anything
    else is returned as it is, with no batch dimension. *)
Definition unwrapTensorAtLevel (w : World) (tensor : TensorRef) (level : Z)
  : result (TensorRef * option Z) :=
  match tensor with
  | PlainRef _ => Ok (tensor, None)
  | BatchedRef i =>
    match wrappers w !! i with
    | None => Err (undefined_behaviour "dangling tensor")
    | Some batched =>
      if decide (level_ batched = level)
      then Ok (PlainRef (value_ batched), Some (bdim_ batched))
      else Ok (tensor, None)
    end
  end.

Definition maybeGetBatchedImpl (tensor : TensorRef) : option nat :=
  match tensor with
  | PlainRef _ => None
  | BatchedRef i => Some i
  end.

(** The sizes and strides a handle shows: those of the plain tensor, or
    the ones cached in the wrapper, which has no storage of its own. *)
Definition geometry (w : World) (tensor : TensorRef) : result Tensor :=
  match tensor with
  | PlainRef i =>
    match tensors w !! i with
    | Some t => Ok t
    | None => Err (undefined_behaviour "dangling tensor")
    end
  | BatchedRef i =>
    match wrappers w !! i with
    | Some b => Ok (mkTensor 0 0 (sizes_ b) (strides_ b))
    | None => Err (undefined_behaviour "dangling tensor")
    end
  end.

(** [moveBatchDimToFront] on handles: the same handle when nothing moves,
    a handle to a new view otherwise. *)
Definition moveBatchDimToFront (tensor : TensorRef) (maybe_batch_dim : option Z)
  (w : World) : result (TensorRef * World) :=
  match maybe_batch_dim with
  | None => Ok (tensor, w)
  | Some b =>
    if decide (b = 0) then Ok (tensor, w)
    else
      t ← geometry w tensor;
      t' ← movedim t b 0;
      Ok (PlainRef (length (tensors w)), set_tensors w (tensors w ++ [t']))
  end.

(** Modelled from the spec: the host library's in-place [resize_] (not
    under src/), which resizes the underlying storage in place: the tensor
    gets the new sizes with contiguous strides, the storage grows when it
    is too small for them and keeps the elements it has where they are;
    what the new part holds is not specified. *)
Definition grow (junk : nat -> Z) (data : list Z) (n : Z) : list Z :=
  data ++ (junk <$> seq (length data) (Z.to_nat n - length data)).

Definition resize_ (self : TensorRef) (size : list Z) (w : World) : result World :=
  match self with
  | BatchedRef _ => Err (torch_check "resize_: tensor without a storage")
  | PlainRef i =>
    match tensors w !! i with
    | None => Err (undefined_behaviour "dangling tensor")
    | Some t =>
      if bool_decide (sizes t = size) then Ok w
      else if negb (forallb (fun n => bool_decide (0 <= n)) size)
      then Err (torch_check "Trying to create tensor with negative dimension")
      else
        let t' := mkTensor (storage t) (storage_offset t) size (contiguous_strides size) in
        let w := set_tensors w (<[i := t']> (tensors w)) in
        let storage_size := numel size in
        if decide (storage_size > 0) then
          match storages w !! storage t with
          | None => Err (undefined_behaviour "dangling storage")
          | Some data =>
            Ok (set_storages w
                  (<[storage t := grow (uninit w) data (storage_size + storage_offset t)]>
                     (storages w)))
          end
        else Ok w
    end
  end.

(** Modelled from the spec: [refreshSizesAndStrides] (not under src/): the
    wrapper's cached sizes and strides are recomputed from its value, the
    batch dimension left out. *)
Definition refreshSizesAndStrides (i : nat) (w : World) : result World :=
  match wrappers w !! i with
  | None => Err (undefined_behaviour "dangling tensor")
  | Some b =>
    match tensors w !! value_ b with
    | None => Err (undefined_behaviour "dangling tensor")
    | Some t =>
      let b' := mkBatched (value_ b) (bdim_ b) (level_ b)
                  (vec_erase (sizes t) (bdim_ b)) (vec_erase (strides t) (bdim_ b)) in
      Ok (set_wrappers w (<[i := b']> (wrappers w)))
    end
  end.

(** The scope of an [ExcludeDispatchKeyGuard]: the key is excluded while
    the body runs and the previous setting is back when it is left. *)
Definition with_excluded_key {A} (body : World -> result (A * World)) (w : World)
  : result (A * World) :=
  let saved := batched_key_excluded w in
  '(a, w') ← body (set_excluded w true);
  Ok (a, set_excluded w' saved).

Definition memory_format_supported (f : option MemoryFormat) : bool :=
  match f with
  | None | Some Contiguous => true
  | Some _ => false
  end.

Definition resize__plumbing (self : TensorRef) (size_ : list Z)
  (optional_memory_format : option MemoryFormat) (w : World)
  : result (TensorRef * World) :=
  if negb (memory_format_supported optional_memory_format)
  then Err (torch_check "resize_: batching rule only supports None or Contiguous MemoryFormat")
  else
    match maybeCurrentDynamicLayer w with
    | None => Err (internal_assert "maybe_layer.has_value()")
    | Some cur_level =>
      '(self_value, self_bdim) ← unwrapTensorAtLevel w self cur_level;
      match self_bdim with
      | None => Err (internal_assert "self_bdim.has_value()")
      | Some b =>
        if negb (bool_decide (b = 0))
        then Err (internal_assert "NYI: resize_ batch rule for batch dim != 0")
        else
          with_excluded_key (fun w =>
            '(self_value, w) ← moveBatchDimToFront self_value self_bdim w;
            t ← geometry w self_value;
            n ← size t b;
            new_size ← vec_insert size_ 0 n;
            w ← resize_ self_value new_size w;
            match maybeGetBatchedImpl self with
            | None => Err (internal_assert "batched")
            | Some batched =>
              w ← refreshSizesAndStrides batched w;
              Ok (self, w)
            end) w
      end
    end.

(** The element at an index of a plain tensor, and what it means for a
    resize to keep the first [cols] columns of each of [B] slots. *)
Definition read_value (w : World) (hnd : nat) (idx : list Z) : option Z :=
  t ← tensors w !! hnd; read (storages w) t idx.

Definition slots_preserved (w w' : World) (hnd : nat) (B cols : Z) : Prop :=
  forall k j, 0 <= k < B -> 0 <= j < cols ->
    read_value w' hnd [k; j] = read_value w hnd [k; j].

(** A batched tensor of two slots [0 1 2 3] and [4 5 6 7] at level 1. *)
Definition two_slots : World :=
  mkWorld [[0; 1; 2; 3; 4; 5; 6; 7]] [mkTensor 0 0 [2; 4] [4; 1]]
    [mkBatched 0 0 1 [4] [1]] [1] false (fun _ => 99).

End Resize.

(** ** The registrations

    What [TORCH_LIBRARY_IMPL(aten, FT_BATCHED_KEY, m)] registers for each
    operator of this file. *)
Inductive registration : Type :=
| VMAP_SUPPORT_unsqueeze
    (rule : Tensor -> option Z -> Z -> result (Tensor * option Z))
| VMAP_SUPPORT_view
    (rule : Tensor -> option Z -> list Z -> result (Tensor * option Z))
| VMAP_SUPPORT_diag
    (rule : Tensor -> option Z -> Z -> list (list Z) -> result ((Tensor * option Z) * list (list Z)))
| VMAP_SUPPORT_sizes
    (rule : Tensor -> option Z -> list Z -> list (list Z)
            -> result ((Tensor * option Z) * list (list Z)))
| VMAP_SUPPORT_variadic_bdims
| OP_DECOMPOSE
| impl_native
| impl_decomposition (f : Tensor -> list (list Z) -> result (Tensor * list (list Z)))
| impl_plumbing
    (f : Resize.TensorRef -> list Z -> option Resize.MemoryFormat -> Resize.World
         -> result (Resize.TensorRef * Resize.World)).

Definition registrations : list (string * registration) :=
  [ ("diag", VMAP_SUPPORT_diag diag_batch_rule);
    ("expand_as", OP_DECOMPOSE);
    ("flatten.using_ints", impl_native);
    ("flip", VMAP_SUPPORT_sizes flip_batch_rule);
    ("meshgrid", OP_DECOMPOSE);
    ("narrow", OP_DECOMPOSE);
    ("trace", impl_decomposition trace_decomp);
    ("tril", VMAP_SUPPORT_variadic_bdims);
    ("triu", VMAP_SUPPORT_variadic_bdims);
    ("repeat", VMAP_SUPPORT_sizes repeat_batch_rule);
    ("_unsafe_view", VMAP_SUPPORT_view _unsafe_view_batch_rule);
    ("unsqueeze", VMAP_SUPPORT_unsqueeze unsqueeze_batch_rule);
    ("resize_", impl_plumbing Resize.resize__plumbing) ]%string.

Definition registered (op : string) : option registration :=
  (fun found => found.2.2) <$> list_find (fun entry => entry.1 = op) registrations.

(** ** Vocabulary for the further properties *)

(** The invariant on a batch dimension: when present it is an axis of the
    tensor. *)
Definition valid_bdim (t : Tensor) (bdim : option Z) : Prop :=
  forall b, bdim = Some b -> 0 <= b < dim t.

(** The index that [flip] over the axes [ds] reads for the index [idx] of
    a tensor of the given shape. *)
Definition flip_index (shape ds idx : list Z) : list Z :=
  imap (fun k i =>
          if bool_decide (Z.of_nat k ∈ ds) then vec_at shape (Z.of_nat k) - 1 - i
          else i) idx.

(** [out] is a new dense tensor: the heap [h'] is [h] with one storage
    added, and [out] is the contiguous tensor over it. *)
Definition allocates (h : heap) (out : Tensor) (h' : heap) : Prop :=
  exists data,
    h' = h ++ [data] /\
    storage out = length h /\
    storage_offset out = 0 /\
    is_contiguous out = true /\
    length data = length (all_indices (sizes out)).

(** The axis a dimension in [[-n, n)] names. *)
Definition wrap_dim (d n : Z) : Z := if decide (d < 0) then d + n else d.

(** * Properties *)

(** ** Dimension wrapping and vectors *)

Lemma maybe_wrap_dim_ok d n :
  0 < n -> - n <= d < n ->
  maybe_wrap_dim d n = Ok (if decide (d < 0) then d + n else d).
Proof.
  intros Hn Hd. unfold maybe_wrap_dim.
  repeat case_decide; try lia; reflexivity.
Qed.

Lemma maybe_wrap_dim_range d n w :
  maybe_wrap_dim d n = Ok w -> 0 <= w < Z.max n 1.
Proof.
  unfold maybe_wrap_dim. repeat case_decide; intros [= <-]; lia.
Qed.

Lemma maybe_wrap_dim_nonneg d n :
  0 < n -> 0 <= d < n -> maybe_wrap_dim d n = Ok d.
Proof.
  intros Hn Hd. rewrite maybe_wrap_dim_ok by lia. case_decide; [lia | done].
Qed.

Lemma length_insert_at (v : list Z) pos x :
  length (insert_at v pos x) = S (length v).
Proof.
  unfold insert_at. rewrite length_app. simpl.
  rewrite length_take, length_drop. lia.
Qed.

Lemma length_vec_erase (v : list Z) pos :
  0 <= pos < Z.of_nat (length v) -> length (vec_erase v pos) = pred (length v).
Proof.
  intros Hp. unfold vec_erase. rewrite length_app, length_take, length_drop. lia.
Qed.

Lemma insert_at_0 (v : list Z) x : insert_at v 0 x = x :: v.
Proof. reflexivity. Qed.

Lemma vec_erase_0 (a : Z) v : vec_erase (a :: v) 0 = v.
Proof. unfold vec_erase. simpl. by rewrite drop_0. Qed.

Lemma vec_at_0 (a : Z) v : vec_at (a :: v) 0 = a.
Proof. reflexivity. Qed.

Lemma insert_at_S (a : Z) v pos x :
  0 <= pos -> insert_at (a :: v) (pos + 1) x = a :: insert_at v pos x.
Proof.
  intros Hp. unfold insert_at.
  replace (Z.to_nat (pos + 1)) with (S (Z.to_nat pos)) by lia. reflexivity.
Qed.

Lemma move_front (v : list Z) b : move v b 0 = vec_at v b :: vec_erase v b.
Proof. reflexivity. Qed.

Lemma vec_front (v : list Z) : v <> [] -> vec_at v 0 :: vec_erase v 0 = v.
Proof. destruct v; [done | intros _; by rewrite vec_at_0, vec_erase_0]. Qed.

(** ** The utility layer *)

(** The geometry of the canonical form: the batch axis comes first and the
    other axes keep their order. *)
Lemma moveBatchDimToFront_batched (t : Tensor) (b : Z) :
  0 <= b < dim t ->
  exists t_,
    moveBatchDimToFront t (Some b) = Ok t_ /\
    storage t_ = storage t /\
    storage_offset t_ = storage_offset t /\
    sizes t_ = vec_at (sizes t) b :: vec_erase (sizes t) b /\
    (length (strides t) = length (sizes t) ->
     strides t_ = vec_at (strides t) b :: vec_erase (strides t) b).
Proof.
  intros Hb. unfold moveBatchDimToFront. case_decide as Hb0.
  - subst b. exists t. repeat split; try done.
    + symmetry. apply vec_front. unfold dim in Hb. destruct (sizes t); simpl in *; [lia | done].
    + intros Hlen. symmetry. apply vec_front. unfold dim in Hb.
      destruct (strides t), (sizes t); simpl in *; try done; lia.
  - unfold movedim. rewrite (maybe_wrap_dim_nonneg b) by lia.
    rewrite (maybe_wrap_dim_nonneg 0) by lia. simpl.
    case_decide; [lia |]. eexists. split; [reflexivity |]. simpl.
    by rewrite !move_front.
Qed.

Lemma dim_moveBatchDimToFront t b t_ :
  moveBatchDimToFront t b = Ok t_ -> dim t_ = dim t.
Proof.
  unfold moveBatchDimToFront. destruct b as [b |]; [| by intros [= <-]].
  case_decide; [by intros [= <-] |].
  unfold movedim. destruct (maybe_wrap_dim b (dim t)) as [b' |] eqn:Eb; [| done].
  destruct (maybe_wrap_dim 0 (dim t)) as [z |] eqn:Ez; [| done]. simpl.
  case_decide as Hd; [by intros [= <-] |].
  intros [= <-]. unfold dim, move. simpl. rewrite length_insert_at.
  apply maybe_wrap_dim_range in Eb.
  rewrite length_vec_erase by (unfold dim in *; lia). unfold dim in *. lia.
Qed.

(** ** Indices and storages *)

Lemma elem_of_all_indices (shape idx : list Z) :
  idx ∈ all_indices shape <-> in_range shape idx.
Proof.
  unfold in_range. revert idx. induction shape as [| n rest IH]; intros idx; simpl.
  - rewrite list_elem_of_singleton. split; [intros ->; constructor | by inversion 1].
  - rewrite list_elem_of_bind. split.
    + intros (i & Hin & Hi). apply list_elem_of_fmap in Hin as (idx' & -> & Hidx').
      apply elem_of_seqZ in Hi. constructor; [lia | by apply IH].
    + inversion 1 as [| i n' idx' rest' Hi Hrest]; subst.
      exists i. split; [| apply elem_of_seqZ; lia].
      apply list_elem_of_fmap. exists idx'. split; [done | by apply IH].
Qed.

Lemma in_range_length shape idx : in_range shape idx -> length idx = length shape.
Proof. apply Forall2_length. Qed.

Lemma length_bind_const {A B} (f : A -> list B) (l : list A) (L : nat) :
  (forall x, length (f x) = L) -> length (l ≫= f) = (length l * L)%nat.
Proof.
  intros Hf. induction l as [| x l IH]; [done |].
  rewrite bind_cons, length_app, Hf, IH. simpl. lia.
Qed.

Lemma lookup_bind_const {A B} (f : A -> list B) (l : list A) (L i j : nat) (a : A) :
  (forall x, length (f x) = L) -> l !! i = Some a -> (j < L)%nat ->
  (l ≫= f) !! (i * L + j)%nat = f a !! j.
Proof.
  intros Hf. revert i. induction l as [| x l IH]; intros i Hi Hj; [done |].
  rewrite bind_cons. destruct i as [| i]; simpl in *.
  - injection Hi as ->. apply lookup_app_l. by rewrite Hf.
  - rewrite lookup_app_r by (rewrite Hf; lia).
    rewrite Hf. replace (L + i * L + j - L)%nat with (i * L + j)%nat by lia.
    by apply IH.
Qed.

Lemma length_all_indices shape idx :
  in_range shape idx -> Z.of_nat (length (all_indices shape)) = row_size shape.
Proof.
  unfold in_range. induction 1 as [| i n idx rest Hi Hrest IH]; [done |].
  simpl. rewrite (length_bind_const _ _ (length (all_indices rest))).
  - rewrite length_seqZ, Nat2Z.inj_mul, Z2Nat.id, IH by lia.
    unfold row_size. simpl. rewrite Z.max_l by lia. reflexivity.
  - intros x. by rewrite length_fmap.
Qed.

(** In row-major order, the index [idx] of a shape sits at the position
    its contiguous strides give. *)
Lemma lookup_all_indices shape idx :
  in_range shape idx ->
  0 <= dot idx (contiguous_strides shape) /\
  all_indices shape !! Z.to_nat (dot idx (contiguous_strides shape)) = Some idx.
Proof.
  unfold in_range. induction 1 as [| i n idx rest Hi Hrest [IH0 IH]]; [done |].
  simpl. pose proof (length_all_indices rest idx Hrest) as HL.
  assert (0 <= row_size rest) as Hrow by lia.
  split; [nia |].
  rewrite <- HL.
  replace (Z.to_nat (i * Z.of_nat (length (all_indices rest))
                     + dot idx (contiguous_strides rest)))
    with (Z.to_nat i * length (all_indices rest)
          + Z.to_nat (dot idx (contiguous_strides rest)))%nat by nia.
  rewrite (lookup_bind_const _ _ (length (all_indices rest)) _ _ i).
  - by rewrite list_lookup_fmap, IH.
  - intros x. by rewrite length_fmap.
  - rewrite lookup_seqZ. lia.
  - by apply lookup_lt_Some in IH.
Qed.

Lemma read_new_tensor (h : heap) shape (data : list Z) idx :
  in_range shape idx ->
  read (new_tensor h shape data).2 (new_tensor h shape data).1 idx
  = data !! Z.to_nat (dot idx (contiguous_strides shape)).
Proof.
  intros Hin. unfold new_tensor, read, flat_index. simpl.
  rewrite list_lookup_middle by done. simpl.
  destruct (lookup_all_indices shape idx Hin) as [H0 _].
  case_decide; [done | lia].
Qed.

Lemma mapM_tabulated {A B} (f : A -> option B) (g : A -> B) (l : list A) :
  (forall x, x ∈ l -> f x = Some (g x)) -> mapM f l = Some (g <$> l).
Proof.
  intros Hf. apply mapM_Some_2. induction l as [| x l IH]; [constructor |].
  simpl. constructor.
  - apply Hf. left.
  - apply IH. intros y Hy. apply Hf. by right.
Qed.

(** A tabulated tensor exists as soon as its elements are defined, and
    holds them. *)
Lemma tabulate_ok (h : heap) shape (f : list Z -> option Z) (g : list Z -> Z) :
  (forall idx, in_range shape idx -> f idx = Some (g idx)) ->
  tabulate h shape f = Ok (new_tensor h shape (g <$> all_indices shape)).
Proof.
  intros Hf. unfold tabulate. rewrite (mapM_tabulated f g); [done |].
  intros idx Hidx. apply Hf. by apply elem_of_all_indices.
Qed.

Lemma read_tabulated (h : heap) shape (g : list Z -> Z) idx :
  in_range shape idx ->
  read (new_tensor h shape (g <$> all_indices shape)).2
       (new_tensor h shape (g <$> all_indices shape)).1 idx = Some (g idx).
Proof.
  intros Hin. rewrite read_new_tensor by done.
  destruct (lookup_all_indices shape idx Hin) as [_ Hl].
  by rewrite list_lookup_fmap, Hl.
Qed.

Lemma to_dense_reads (h : heap) (t : Tensor) (g : list Z -> Z) :
  (forall idx, in_range (sizes t) idx -> read h t idx = Some (g idx)) ->
  to_dense h t = Some (mkDense (sizes t) (g <$> all_indices (sizes t))).
Proof.
  intros Hr. unfold to_dense. rewrite (mapM_tabulated (read h t) g); [done |].
  intros idx Hidx. apply Hr. by apply elem_of_all_indices.
Qed.

(** What well-formedness gives. *)
Lemma wf_spec (h : heap) (t : Tensor) :
  wf h t ->
  length (strides t) = length (sizes t) /\
  Forall (fun n => 0 <= n) (sizes t) /\
  (storage t < length h)%nat /\
  forall idx, in_range (sizes t) idx -> is_Some (read h t idx).
Proof.
  unfold wf, wfb. rewrite !andb_true_iff.
  intros [[[H1 H0] H2] H3]. apply bool_decide_eq_true in H1, H0.
  rewrite forallb_forall in H2, H3.
  repeat split; try done.
  - apply Forall_forall. intros n Hn. apply list_elem_of_In, H2 in Hn.
    by apply bool_decide_eq_true in Hn.
  - intros idx Hidx. apply elem_of_all_indices, list_elem_of_In, H3 in Hidx.
    by apply bool_decide_eq_true in Hidx.
Qed.

(** ** unsqueeze and _unsafe_view *)

Lemma dot_insert_at (idx strd : list Z) (p : nat) (x s : Z) :
  length idx = length strd -> (p <= length idx)%nat ->
  dot (insert_at idx (Z.of_nat p) x) (insert_at strd (Z.of_nat p) s)
  = dot idx strd + x * s.
Proof.
  unfold insert_at. rewrite Nat2Z.id. revert strd p.
  induction idx as [| i idx IH]; intros [| s0 strd] p Hlen Hp; simpl in *; try done.
  - destruct p; simpl; lia.
  - destruct p as [| p]; simpl.
    + lia.
    + rewrite IH by lia. lia.
Qed.

Lemma unsqueeze_ok (t : Tensor) (d : Z) :
  0 <= d <= dim t ->
  unsqueeze t d
  = Ok (mkTensor (storage t) (storage_offset t) (insert_at (sizes t) d 1)
          (insert_at (strides t) d
             (if decide (d >= dim t) then 1
              else vec_at (sizes t) d * vec_at (strides t) d))).
Proof.
  intros Hd. unfold unsqueeze.
  rewrite maybe_wrap_dim_nonneg by lia. reflexivity.
Qed.

Lemma insert_at_erase_front (v : list Z) (b w x : Z) :
  0 <= w ->
  insert_at (vec_at v b :: vec_erase v b) (w + 1) x
  = vec_at v b :: insert_at (vec_erase v b) w x.
Proof. intros Hw. by rewrite insert_at_S. Qed.

(** C8. On a batched input the unsqueeze rule brings the batch axis to the
    front, wraps the logical dimension over the unbatched rank plus one with
    the negative-index wrap, shifts it by one past the batch axis, inserts
    the singleton axis there (the elements are untouched) and reports batch
    dimension 0.  At logical axis 0 on an input of unbatched rank 1 the
    result has unbatched rank 2 and the new axis directly follows the batch
    axis. *)
Theorem unsqueeze_batch_rule_batched (self : Tensor) (b d : Z) :
  length (strides self) = length (sizes self) ->
  0 <= b < dim self ->
  let rank := rankWithoutBatchDim self (Some b) in
  - (rank + 1) <= d < rank + 1 ->
  let w := if decide (d < 0) then d + (rank + 1) else d in
  exists self_ out,
    moveBatchDimToFront self (Some b) = Ok self_ /\
    sizes self_ = vec_at (sizes self) b :: vec_erase (sizes self) b /\
    maybe_wrap_dim d (rank + 1) = Ok w /\
    0 <= w < rank + 1 /\
    unsqueeze self_ (w + 1) = Ok out /\
    unsqueeze_batch_rule self (Some b) d = Ok (out, Some 0) /\
    sizes out = vec_at (sizes self) b :: insert_at (vec_erase (sizes self) b) w 1 /\
    storage out = storage self /\
    (forall h idx, length idx = length (sizes self_) ->
                   read h out (insert_at idx (w + 1) 0) = read h self_ idx) /\
    (rank = 1 -> d = 0 ->
     sizes out = [vec_at (sizes self) b; 1; vec_at (vec_erase (sizes self) b) 0] /\
     rankWithoutBatchDim out (Some 0) = 2).
Proof.
  intros Hlen Hb rank Hd w.
  destruct (moveBatchDimToFront_batched self b Hb) as (self_ & Hmove & Hst & Hoff & Hsz & Hstr).
  specialize (Hstr Hlen).
  assert (dim self_ = dim self) as Hdim by (by apply dim_moveBatchDimToFront in Hmove).
  assert (rank = dim self - 1) as Hrank by reflexivity.
  assert (0 <= w < rank + 1) as Hw by (subst w; case_decide; lia).
  assert (maybe_wrap_dim d (rank + 1) = Ok w) as Hwrap by (apply maybe_wrap_dim_ok; lia).
  eexists self_, _. split; [exact Hmove |]. split; [exact Hsz |].
  split; [exact Hwrap |]. split; [exact Hw |].
  split; [apply unsqueeze_ok; lia |].
  split.
  { unfold unsqueeze_batch_rule. rewrite Hmove. simpl.
    change (dim self - 1) with rank. rewrite Hwrap. simpl.
    rewrite unsqueeze_ok by lia. reflexivity. }
  simpl. split; [rewrite Hsz; apply insert_at_erase_front; lia |].
  split; [done |].
  split.
  { intros h idx Hidx. unfold read, flat_index. simpl.
    replace (w + 1) with (Z.of_nat (Z.to_nat (w + 1))) by lia.
    rewrite dot_insert_at.
    - by rewrite Z.mul_0_l, Z.add_0_r.
    - rewrite Hidx, Hsz, Hstr. simpl. f_equal.
      rewrite !length_vec_erase; unfold dim in *; lia.
    - rewrite Hidx. unfold dim in *. clearbody w rank. lia. }
  intros Hr1 ->. rewrite Hsz. subst w. case_decide; [lia |].
  assert (length (vec_erase (sizes self) b) = 1%nat) as Hl1.
  { unfold dim in *. rewrite length_vec_erase by lia. lia. }
  destruct (vec_erase (sizes self) b) as [| n [| ? ?]]; done.
Qed.

(** One input of unbatched rank 1 with its batch axis last, unsqueezed at
    logical axis 0. *)
Lemma unsqueeze_batch_rule_batched_witness :
  exists out,
    unsqueeze_batch_rule (mkTensor 0 0 [3; 2] [2; 1]) (Some 1) 0 = Ok (out, Some 0) /\
    sizes out = [2; 1; 3].
Proof.
  destruct (unsqueeze_batch_rule_batched (mkTensor 0 0 [3; 2] [2; 1]) 1 0)
    as (self_ & out & _ & _ & _ & _ & _ & Hrule & _ & _ & _ & Hrank1);
    [reflexivity | vm_compute; split; congruence | vm_compute; split; congruence |].
  exists out. split; [exact Hrule |].
  destruct Hrank1 as [Hs _]; [reflexivity | reflexivity |]. exact Hs.
Defined.

(** C10. With a batch dimension at index [b] the [_unsafe_view] rule views
    the input, as it is and without moving the batch axis, under the
    requested sizes with the input's size at axis [b] inserted at position
    [b], and reports the batch dimension [b] it was given. *)
Theorem unsafe_view_batch_rule_batched (self : Tensor) (b : Z) (size_ : list Z) :
  0 <= b < dim self ->
  b <= Z.of_nat (length size_) ->
  let view_size := insert_at size_ b (vec_at (sizes self) b) in
  _unsafe_view_batch_rule self (Some b) size_
  = (r ← _unsafe_view self view_size; Ok (r, Some b)) /\
  (forall out bd,
      _unsafe_view_batch_rule self (Some b) size_ = Ok (out, bd) ->
      bd = Some b /\
      sizes out = view_size /\
      vec_at (sizes out) b = vec_at (sizes self) b /\
      vec_erase (sizes out) b = size_ /\
      storage out = storage self /\
      storage_offset out = storage_offset self) /\
  (is_contiguous self = true ->
   Forall (fun n => 0 <= n) view_size ->
   numel view_size = numel (sizes self) ->
   exists out, _unsafe_view_batch_rule self (Some b) size_ = Ok (out, Some b)).
Proof.
  intros Hb Hlen view_size.
  assert (_unsafe_view_batch_rule self (Some b) size_
          = (r ← _unsafe_view self view_size; Ok (r, Some b))) as Heq.
  { unfold _unsafe_view_batch_rule, size, wrap_strict, vec_insert, dim in *. simpl.
    destruct (decide (Z.of_nat (length (sizes self)) <= 0)); [lia |].
    rewrite maybe_wrap_dim_nonneg by lia. simpl.
    destruct (decide (0 <= b <= Z.of_nat (length size_))); [| lia]. reflexivity. }
  split; [exact Heq |]. split.
  - intros out bd. rewrite Heq. unfold _unsafe_view.
    repeat (case_match; simpl; try done). intros [= <- <-]. simpl.
    repeat split; try done.
    + unfold view_size, insert_at, vec_at.
      rewrite lookup_app_r by (rewrite length_take; lia).
      rewrite length_take. replace (Z.to_nat b - _)%nat with 0%nat by lia. done.
    + unfold view_size, insert_at, vec_erase.
      rewrite take_app_length' by (rewrite length_take; lia).
      rewrite drop_app_ge by (rewrite length_take; lia).
      rewrite length_take.
      replace (S (Z.to_nat b) - _)%nat with 1%nat by lia.
      simpl. rewrite drop_0. apply take_drop.
  - intros Hc Hnn Hnum. rewrite Heq. unfold _unsafe_view.
    assert (forallb (fun n => bool_decide (0 <= n)) view_size = true) as ->.
    { apply forallb_forall. intros n Hn. apply bool_decide_eq_true.
      rewrite Forall_forall in Hnn. by apply Hnn, list_elem_of_In. }
    rewrite Hc. rewrite bool_decide_eq_true_2 by done. simpl. eauto.
Qed.

(** A contiguous input of sizes [2; 3] with its batch axis at index 1,
    viewed per slot as a single element list. *)
Lemma unsafe_view_batch_rule_batched_witness :
  exists out,
    _unsafe_view_batch_rule (mkTensor 0 0 [2; 3] [3; 1]) (Some 1) [2] = Ok (out, Some 1) /\
    sizes out = [2; 3].
Proof.
  destruct (unsafe_view_batch_rule_batched (mkTensor 0 0 [2; 3] [3; 1]) 1 [2])
    as (_ & Hshape & Hok); [vm_compute; split; congruence | vm_compute; congruence |].
  assert (Forall (fun n => 0 <= n) [2; 3]) as Hnn by (repeat constructor; lia).
  destruct (Hok eq_refl Hnn eq_refl) as [out Hout].
  exists out. split; [exact Hout |].
  by destruct (Hshape out (Some 1) Hout) as (_ & -> & _).
Defined.

(** ** Reading through views *)

Lemma all_indices_cons (n : Z) rest :
  all_indices (n :: rest) = i ← seqZ 0 n; (fun idx => i :: idx) <$> all_indices rest.
Proof. reflexivity. Qed.

Arguments all_indices : simpl never.
Arguments contiguous_strides : simpl never.

Lemma wf_intro (h : heap) (t : Tensor) :
  length (strides t) = length (sizes t) ->
  Forall (fun n => 0 <= n) (sizes t) ->
  (storage t < length h)%nat ->
  (forall idx, in_range (sizes t) idx -> is_Some (read h t idx)) ->
  wf h t.
Proof.
  intros H1 H2 H0 H3. unfold wf, wfb. rewrite !andb_true_iff.
  repeat split; try by apply bool_decide_eq_true.
  - apply forallb_forall. intros n Hn. apply bool_decide_eq_true.
    rewrite Forall_forall in H2. by apply H2, list_elem_of_In.
  - apply forallb_forall. intros idx Hidx. apply bool_decide_eq_true.
    by apply H3, elem_of_all_indices, list_elem_of_In.
Qed.

(** Two reads of one storage at one flat position agree. *)
Lemma read_flat (h : heap) (t1 t2 : Tensor) idx1 idx2 :
  storage t1 = storage t2 ->
  flat_index t1 idx1 = flat_index t2 idx2 ->
  read h t1 idx1 = read h t2 idx2.
Proof. intros Hs Hf. unfold read. by rewrite Hs, Hf. Qed.

Lemma dot_move_front (idx st : list Z) (b : nat) (k : Z) :
  S (length idx) = length st -> (b < length st)%nat ->
  dot (k :: idx) (vec_at st (Z.of_nat b) :: vec_erase st (Z.of_nat b))
  = dot (insert_at idx (Z.of_nat b) k) st.
Proof.
  unfold vec_at, vec_erase, insert_at. rewrite Nat2Z.id. revert idx b.
  induction st as [| s st IH]; intros idx b Hlen Hb; simpl in *; [lia |].
  destruct b as [| b]; simpl.
  - by rewrite drop_0.
  - destruct idx as [| i idx]; simpl in *.
    + destruct st; simpl in *; lia.
    + specialize (IH idx b). simpl in IH.
      rewrite <- IH by lia. lia.
Qed.

Lemma in_range_move_front (sz idx : list Z) (b : nat) (k : Z) :
  (b < length sz)%nat ->
  in_range (vec_at sz (Z.of_nat b) :: vec_erase sz (Z.of_nat b)) (k :: idx) ->
  in_range sz (insert_at idx (Z.of_nat b) k).
Proof.
  unfold in_range, vec_at, vec_erase, insert_at. rewrite Nat2Z.id. revert idx b.
  induction sz as [| n sz IH]; intros idx b Hb Hr; simpl in *; [lia |].
  destruct b as [| b]; simpl in *.
  - by rewrite drop_0 in Hr.
  - inversion Hr as [| ? ? ? ? Hk Hrest]; subst.
    inversion Hrest as [| i ? idx' ? Hi Hrest']; subst. simpl.
    constructor; [done |]. apply IH; [lia |]. by constructor.
Qed.

(** The canonical form of a well-formed tensor is well formed: it reads
    the same elements, the batch index first. *)
Lemma read_moveBatchDimToFront (h : heap) (t t_ : Tensor) (b k : Z) idx :
  length (strides t) = length (sizes t) ->
  0 <= b < dim t ->
  moveBatchDimToFront t (Some b) = Ok t_ ->
  S (length idx) = length (sizes t) ->
  read h t_ (k :: idx) = read h t (insert_at idx b k).
Proof.
  intros Hlen Hb Hmove Hidx.
  destruct (moveBatchDimToFront_batched t b Hb) as (t' & Hmove' & Hst & Hoff & Hsz & Hstr).
  rewrite Hmove in Hmove'. injection Hmove' as <-.
  apply read_flat; [done |]. unfold flat_index. rewrite Hoff, (Hstr Hlen).
  unfold dim in Hb. replace b with (Z.of_nat (Z.to_nat b)) by lia.
  rewrite dot_move_front; [done | lia | lia].
Qed.

Lemma Forall_vec_erase (P : Z -> Prop) (v : list Z) pos :
  Forall P v -> Forall P (vec_erase v pos).
Proof.
  intros Hv. unfold vec_erase. apply Forall_app. split.
  - by apply Forall_take.
  - by apply Forall_drop.
Qed.

Lemma Forall_vec_at (P : Z -> Prop) (v : list Z) pos :
  Forall P v -> 0 <= pos < Z.of_nat (length v) -> P (vec_at v pos).
Proof.
  intros Hv Hp. unfold vec_at.
  destruct (lookup_lt_is_Some_2 v (Z.to_nat pos)) as [x Hx]; [lia |].
  rewrite Hx. simpl. rewrite Forall_forall in Hv. apply Hv.
  by eapply list_elem_of_lookup_2.
Qed.

Lemma wf_moveBatchDimToFront (h : heap) (t t_ : Tensor) (b : Z) :
  wf h t -> 0 <= b < dim t ->
  moveBatchDimToFront t (Some b) = Ok t_ ->
  wf h t_.
Proof.
  intros Hwf Hb Hmove.
  destruct (wf_spec h t Hwf) as (Hlen & Hnn & Hsto & Hread).
  destruct (moveBatchDimToFront_batched t b Hb) as (t' & Hmove' & Hst & Hoff & Hsz & Hstr).
  rewrite Hmove in Hmove'. injection Hmove' as <-. specialize (Hstr Hlen).
  unfold dim in Hb.
  apply wf_intro.
  - rewrite Hsz, Hstr. simpl. rewrite !length_vec_erase by lia. lia.
  - rewrite Hsz. constructor; [by apply Forall_vec_at | by apply Forall_vec_erase].
  - by rewrite Hst.
  - intros idx Hidx. rewrite Hsz in Hidx.
    destruct idx as [| k idx]; [inversion Hidx |].
    pose proof (in_range_length _ _ Hidx) as Hl. simpl in Hl.
    rewrite length_vec_erase in Hl by lia.
    assert (read h t_ (k :: idx) = read h t (insert_at idx b k)) as ->.
    { apply read_moveBatchDimToFront; first [done | unfold dim; lia]. }
    apply Hread. replace b with (Z.of_nat (Z.to_nat b)) by lia.
    apply in_range_move_front; [lia |]. by rewrite Z2Nat.id by lia.
Qed.

(** A slot of the canonical form is the slot of the input. *)
Lemma select_ok (t : Tensor) (d k : Z) :
  0 <= d < dim t -> 0 <= k < vec_at (sizes t) d ->
  select t d k
  = Ok (mkTensor (storage t) (storage_offset t + k * vec_at (strides t) d)
          (vec_erase (sizes t) d) (vec_erase (strides t) d)).
Proof.
  intros Hd Hk. unfold select, wrap_strict.
  rewrite maybe_wrap_dim_nonneg by lia.
  destruct (decide (dim t <= 0)); [lia |]. simpl.
  repeat case_decide; solve [lia | reflexivity].
Qed.

Lemma select_canonical (t t_ : Tensor) (b k : Z) :
  length (strides t) = length (sizes t) ->
  0 <= b < dim t -> 0 <= k < vec_at (sizes t) b ->
  moveBatchDimToFront t (Some b) = Ok t_ ->
  select t_ 0 k = select t b k.
Proof.
  intros Hlen Hb Hk Hmove.
  destruct (moveBatchDimToFront_batched t b Hb) as (t' & Hmove' & Hst & Hoff & Hsz & Hstr).
  rewrite Hmove in Hmove'. injection Hmove' as <-. specialize (Hstr Hlen).
  rewrite (select_ok t b k) by done.
  rewrite (select_ok t_ 0 k).
  - rewrite Hst, Hoff, Hsz, Hstr. by rewrite !vec_at_0, !vec_erase_0.
  - unfold dim. rewrite Hsz. simpl. lia.
  - by rewrite Hsz, vec_at_0.
Qed.

Lemma read_select_front (h : heap) (t : Tensor) (k : Z) idx :
  read h (mkTensor (storage t) (storage_offset t + k * vec_at (strides t) 0)
            (vec_erase (sizes t) 0) (vec_erase (strides t) 0)) idx
  = read h t (k :: idx).
Proof.
  apply read_flat; [done |]. unfold flat_index. simpl.
  destruct (strides t) as [| s st]; simpl.
  - destruct idx; simpl; unfold vec_at; simpl; lia.
  - rewrite vec_at_0, vec_erase_0. lia.
Qed.

(** ** Slots of tabulated tensors *)

Lemma fmap_ext_in {A B} (f g : A -> B) (l : list A) :
  (forall x, x ∈ l -> f x = g x) -> f <$> l = g <$> l.
Proof.
  intros H. apply list_fmap_ext. intros i x Hx. apply H.
  by eapply list_elem_of_lookup_2.
Qed.

Lemma to_dense_new_tensor (h : heap) shape (g : list Z -> Z) :
  to_dense (new_tensor h shape (g <$> all_indices shape)).2
           (new_tensor h shape (g <$> all_indices shape)).1
  = Some (mkDense shape (g <$> all_indices shape)).
Proof.
  rewrite (to_dense_reads _ _ g); [done |].
  intros idx Hidx. by apply read_tabulated.
Qed.

(** The slot [k] of a tabulated tensor holds the elements whose leading
    index is [k]. *)
Lemma slot_of_tabulated (h : heap) (B : Z) inner (g : list Z -> Z) (k : Z) :
  0 <= k < B ->
  exists oslot,
    select (new_tensor h (B :: inner) (g <$> all_indices (B :: inner))).1 0 k = Ok oslot /\
    to_dense (new_tensor h (B :: inner) (g <$> all_indices (B :: inner))).2 oslot
    = Some (mkDense inner ((fun idx => g (k :: idx)) <$> all_indices inner)).
Proof.
  intros Hk.
  set (out := (new_tensor h (B :: inner) (g <$> all_indices (B :: inner))).1).
  set (h' := (new_tensor h (B :: inner) (g <$> all_indices (B :: inner))).2).
  eexists. split.
  { apply select_ok; unfold out, dim, vec_at; simpl; lia. }
  rewrite (to_dense_reads _ _ (fun idx => g (k :: idx))).
  - simpl. by rewrite vec_erase_0.
  - intros idx Hidx. rewrite read_select_front.
    apply read_tabulated. simpl in Hidx. rewrite vec_erase_0 in Hidx.
    by constructor.
Qed.

(** A tensor with a leading axis is the stack of its slots. *)
Lemma to_dense_stack (h : heap) (t : Tensor) (B : Z) inner (g : list Z -> Z) :
  sizes t = B :: inner -> 0 <= B ->
  (forall idx, in_range (B :: inner) idx -> read h t idx = Some (g idx)) ->
  to_dense h t
  = Some (stack inner
            ((fun k => mkDense inner ((fun idx => g (k :: idx)) <$> all_indices inner))
               <$> seqZ 0 B)).
Proof.
  intros Hsz HB Hr. rewrite (to_dense_reads h t g) by (by rewrite Hsz).
  rewrite Hsz. unfold stack. f_equal.
  rewrite length_fmap, length_seqZ, Z2Nat.id by lia. f_equal.
  simpl. rewrite all_indices_cons.
  generalize (seqZ 0 B) as l. induction l as [| k l IH]; [done |].
  rewrite fmap_cons, !bind_cons, fmap_app, IH. simpl. f_equal.
  by rewrite <- list_fmap_compose.
Qed.

(** The slot [k] of a batched input, read through its canonical form. *)
Lemma slot_canonical (h : heap) (t t_ : Tensor) (b k : Z) :
  length (strides t) = length (sizes t) ->
  0 <= b < dim t -> 0 <= k < vec_at (sizes t) b ->
  moveBatchDimToFront t (Some b) = Ok t_ ->
  exists slot,
    select t b k = Ok slot /\
    sizes slot = vec_erase (sizes t_) 0 /\
    forall idx, read h slot idx = read h t_ (k :: idx).
Proof.
  intros Hlen Hb Hk Hmove.
  rewrite <- (select_canonical t t_ b k Hlen Hb Hk Hmove).
  destruct (moveBatchDimToFront_batched t b Hb) as (t' & Hmove' & _ & _ & Hsz & _).
  rewrite Hmove in Hmove'. injection Hmove' as <-.
  eexists. split.
  - apply select_ok; [unfold dim; rewrite Hsz; simpl; lia | by rewrite Hsz, vec_at_0].
  - split; [done |]. intros idx. apply read_select_front.
Qed.

(** ** The diag rule *)

Lemma in_range_1 (a : Z) idx :
  in_range [a] idx <-> exists i, idx = [i] /\ 0 <= i < a.
Proof.
  unfold in_range. split.
  - intros H. inversion H as [| i ? idx' ? Hi H']; subst.
    inversion H'; subst. eauto.
  - intros (i & -> & Hi). repeat constructor; lia.
Qed.

Lemma in_range_2 (a b : Z) idx :
  in_range [a; b] idx <-> exists k i, idx = [k; i] /\ 0 <= k < a /\ 0 <= i < b.
Proof.
  unfold in_range. split.
  - intros H. inversion H as [| k ? idx' ? Hk H']; subst.
    apply in_range_1 in H' as (i & -> & Hi). eauto.
  - intros (k & i & -> & Hk & Hi). repeat constructor; lia.
Qed.

Lemma in_range_3 (a b c : Z) idx :
  in_range [a; b; c] idx
  <-> exists k i j, idx = [k; i; j] /\ 0 <= k < a /\ 0 <= i < b /\ 0 <= j < c.
Proof.
  unfold in_range. split.
  - intros H. inversion H as [| k ? idx' ? Hk H']; subst.
    apply in_range_2 in H' as (i & j & -> & Hi & Hj). eauto 10.
  - intros (k & i & j & -> & Hk & Hi & Hj). repeat constructor; lia.
Qed.

Lemma diag_len_nonneg n m d : 0 <= diag_len n m d.
Proof. unfold diag_len. case_decide; lia. Qed.

Lemma diag_len_bounds n m d i :
  0 <= i < diag_len n m d ->
  0 <= i + Z.max (- d) 0 < n /\ 0 <= i + Z.max d 0 < m.
Proof. unfold diag_len. case_decide; lia. Qed.

(** The geometry of the rank-2 branch on a canonical input: the batch axis
    goes last, the diagonal is taken over the two leading axes, which are
    the trailing axes of the canonical input, and comes last. *)
Lemma diag_view_geometry (t_ : Tensor) (B n m rB rn rm d : Z) :
  sizes t_ = [B; n; m] -> strides t_ = [rB; rn; rm] ->
  exists moved view,
    movedim t_ 0 (-1) = Ok moved /\
    sizes moved = [n; m; B] /\
    strides moved = [rn; rm; rB] /\
    diagonal moved d 0 1 = Ok view /\
    sizes view = [B; diag_len n m d] /\
    storage view = storage t_ /\
    forall k i, 0 <= i < diag_len n m d ->
      flat_index view [k; i] = flat_index t_ [k; i + Z.max (- d) 0; i + Z.max d 0].
Proof.
  intros Hsz Hst.
  eexists _, _. split.
  { unfold movedim, dim. rewrite Hsz, Hst. reflexivity. }
  split; [reflexivity |]. split; [reflexivity |].
  split.
  { unfold diagonal, dim. simpl. reflexivity. }
  simpl. split; [reflexivity |]. split; [reflexivity |].
  intros k i Hi. unfold flat_index. simpl. rewrite Hst. simpl.
  unfold vec_at. simpl.
  destruct (decide (diag_len n m d = 0)); [lia |].
  destruct (decide (d >= 0));
    [rewrite (Z.max_l d), (Z.max_r (- d)) by lia
    | rewrite (Z.max_r d), (Z.max_l (- d)) by lia]; lia.
Qed.

Lemma canonical_shape (h : heap) (input : Tensor) (b : Z) :
  wf h input -> 0 <= b < dim input ->
  exists input_,
    moveBatchDimToFront input (Some b) = Ok input_ /\
    wf h input_ /\
    storage input_ = storage input /\
    length (sizes input_) = length (sizes input) /\
    length (strides input_) = length (sizes input) /\
    vec_at (sizes input_) 0 = vec_at (sizes input) b.
Proof.
  intros Hwf Hb.
  destruct (moveBatchDimToFront_batched input b Hb) as (input_ & Hmove & Hst & _ & Hsz & _).
  exists input_. split; [done |].
  pose proof (wf_moveBatchDimToFront h input input_ b Hwf Hb Hmove) as Hwf_.
  destruct (wf_spec h input_ Hwf_) as (Hlen_ & _).
  apply dim_moveBatchDimToFront in Hmove. unfold dim in Hmove.
  repeat split; try done; try lia.
  by rewrite Hsz.
Qed.

(** The rank-2 branch, step by step. *)
Lemma diag_rank2_core (h : heap) (input : Tensor) (b d : Z) :
  wf h input ->
  0 <= b < dim input ->
  rankWithoutBatchDim input (Some b) = 2 ->
  exists input_ moved view B n m,
    moveBatchDimToFront input (Some b) = Ok input_ /\
    wf h input_ /\
    sizes input_ = [B; n; m] /\
    B = vec_at (sizes input) b /\
    movedim input_ 0 (-1) = Ok moved /\
    sizes moved = [n; m; B] /\
    diagonal moved d 0 1 = Ok view /\
    storage view = storage input /\
    (forall k i, 0 <= k < B -> 0 <= i < diag_len n m d ->
       is_Some (read h view [k; i]) /\
       read h view [k; i] = read h input_ [k; i + Z.max (- d) 0; i + Z.max d 0]) /\
    let r := new_tensor h [B; diag_len n m d]
               ((fun idx => default 0 (read h view idx))
                  <$> all_indices [B; diag_len n m d]) in
    clone view h = Ok r /\
    diag_batch_rule input (Some b) d h = Ok ((r.1, Some 0), r.2).
Proof.
  intros Hwf Hb Hrank.
  destruct (canonical_shape h input b Hwf Hb)
    as (input_ & Hmove & Hwf_ & Hsto_ & Hlsz & Hlst & HB).
  unfold rankWithoutBatchDim, dim in Hrank.
  destruct (sizes input_) as [| B [| n [| m [| ? ?]]]] eqn:Hsz; simpl in Hlsz; try lia.
  destruct (strides input_) as [| rB [| rn [| rm [| ? ?]]]] eqn:Hst; simpl in Hlst; try lia.
  destruct (diag_view_geometry input_ B n m rB rn rm d Hsz Hst)
    as (moved & view & Hmoved & Hmsz & _ & Hview & Hvsz & Hvsto & Hflat).
  destruct (wf_spec h input_ Hwf_) as (_ & _ & Hsto & Hread).
  assert (forall k i, 0 <= k < B -> 0 <= i < diag_len n m d ->
            is_Some (read h view [k; i]) /\
            read h view [k; i] = read h input_ [k; i + Z.max (- d) 0; i + Z.max d 0])
    as Hv.
  { intros k i Hk Hi.
    rewrite (read_flat h view input_ [k; i] [k; i + Z.max (- d) 0; i + Z.max d 0])
      by (try done; by apply Hflat).
    split; [| done]. apply Hread. rewrite Hsz. apply in_range_3.
    pose proof (diag_len_bounds n m d i Hi). eauto 10. }
  assert (clone view h
          = Ok (new_tensor h [B; diag_len n m d]
                  ((fun idx => default 0 (read h view idx))
                     <$> all_indices [B; diag_len n m d]))) as Hclone.
  { unfold clone. rewrite Hvsz. apply tabulate_ok.
    intros idx (k & i & -> & Hk & Hi)%in_range_2.
    by destruct (Hv k i Hk Hi) as [[v ->] _]. }
  exists input_, moved, view, B, n, m.
  split; [done |]. split; [done |]. split; [done |]. split; [done |].
  split; [done |]. split; [done |]. split; [done |]. split; [congruence |].
  split; [exact Hv |]. split; [exact Hclone |].
  unfold diag_batch_rule. rewrite Hmove. simpl.
  unfold rankWithoutBatchDim, dim.
  destruct (decide (Z.of_nat (length (sizes input)) - 1 = 1)); [lia |].
  destruct (decide (Z.of_nat (length (sizes input)) - 1 = 2)); [| lia].
  rewrite Hmoved. simpl. rewrite Hview. simpl. rewrite Hclone. simpl.
  by replace (Z.of_nat (length (sizes input)) - 1 - 2) with 0 by lia.
Qed.

(** C4. On a batched input of unbatched rank 2 the diag rule brings the
    batch axis to the front, moves it to the last position, takes the
    diagonal over the two axes that trail the batch axis in the canonical
    input, and returns a materialized copy of it: a contiguous tensor over
    a fresh storage, where the diagonal view addresses the storage of the
    input.  The batch dimension it reports is the rank of the result minus
    two. *)
Theorem diag_batch_rule_rank2 (h : heap) (input : Tensor) (b d : Z) :
  wf h input ->
  0 <= b < dim input ->
  rankWithoutBatchDim input (Some b) = 2 ->
  exists input_ moved view out h' B n m,
    moveBatchDimToFront input (Some b) = Ok input_ /\
    sizes input_ = [B; n; m] /\
    movedim input_ 0 (-1) = Ok moved /\
    sizes moved = [n; m; B] /\
    diagonal moved d 0 1 = Ok view /\
    storage view = storage input /\
    clone view h = Ok (out, h') /\
    diag_batch_rule input (Some b) d h = Ok ((out, Some (dim out - 2)), h') /\
    sizes out = [B; diag_len n m d] /\
    is_contiguous out = true /\
    storage out = length h /\
    storage out <> storage input /\
    (exists data, h' = h ++ [data]) /\
    forall k i, 0 <= k < B -> 0 <= i < diag_len n m d ->
      is_Some (read h' out [k; i]) /\
      read h' out [k; i] = read h input_ [k; i + Z.max (- d) 0; i + Z.max d 0].
Proof.
  intros Hwf Hb Hrank.
  destruct (diag_rank2_core h input b d Hwf Hb Hrank)
    as (input_ & moved & view & B & n & m & Hmove & Hwf_ & Hsz & _ & Hmoved & Hmsz
        & Hview & Hvsto & Hv & Hclone & Hrule).
  destruct (wf_spec h input Hwf) as (_ & _ & Hsto & _).
  simpl in Hclone, Hrule.
  eexists input_, moved, view, _, _, B, n, m.
  split; [done |]. split; [done |]. split; [done |]. split; [done |].
  split; [done |]. split; [done |]. split; [exact Hclone |].
  split; [exact Hrule |].
  split; [reflexivity |]. split; [by apply bool_decide_eq_true |].
  split; [reflexivity |].
  split; [simpl; lia |].
  split; [eauto |].
  intros k i Hk Hi.
  assert (in_range [B; diag_len n m d] [k; i]) as Hin by (apply in_range_2; eauto).
  pose proof (read_tabulated h [B; diag_len n m d]
                (fun idx => default 0 (read h view idx)) [k; i] Hin) as Hout.
  simpl in Hout. rewrite Hout.
  destruct (Hv k i Hk Hi) as [[v Hval] Heq]. split; [eauto |].
  by rewrite <- Heq, Hval.
Qed.

(** One input of unbatched rank 2 and batch size 3, its batch axis last. *)
Lemma diag_batch_rule_rank2_witness :
  exists out h',
    diag_batch_rule (mkTensor 0 0 [2; 2; 3] [6; 3; 1]) (Some 2) 0
      [[0; 1; 2; 3; 4; 5; 6; 7; 8; 9; 10; 11]]
    = Ok ((out, Some (dim out - 2)), h') /\
    sizes out = [3; 2] /\ storage out = 1%nat.
Proof.
  destruct (diag_batch_rule_rank2 [[0; 1; 2; 3; 4; 5; 6; 7; 8; 9; 10; 11]]
              (mkTensor 0 0 [2; 2; 3] [6; 3; 1]) 2 0)
    as (input_ & moved & view & out & h' & B & n & m & Hmove & Hsz & _ & _ & _ & _
        & _ & Hrule & Hout & _ & Hsto & _);
    [reflexivity | vm_compute; split; congruence | reflexivity |].
  exists out, h'. split; [exact Hrule |].
  vm_compute in Hmove. injection Hmove as <-.
  simpl in Hsz. injection Hsz as <- <- <-.
  split; [exact Hout | exact Hsto].
Defined.

(** C3. An input whose unbatched rank is neither 1 nor 2 makes the diag
    rule fail with a usage error and return no tensor: with a batch
    dimension the rule raises its own invalid-shape error, without one the
    error is the host operator's rejection of the rank. *)
Theorem diag_batch_rule_invalid_rank (h : heap) (input : Tensor) (bdim : option Z) (d : Z) :
  (forall b, bdim = Some b -> 0 <= b < dim input) ->
  rankWithoutBatchDim input bdim <> 1 ->
  rankWithoutBatchDim input bdim <> 2 ->
  exists e,
    diag_batch_rule input bdim d h = Err e /\
    is_usage_error e = true /\
    (is_Some bdim -> e = runtime_error "Passed in an invalid shape to at::diag").
Proof.
  intros Hb H1 H2. destruct bdim as [b |].
  - destruct (moveBatchDimToFront_batched input b (Hb b eq_refl)) as (input_ & Hmove & _).
    exists (runtime_error "Passed in an invalid shape to at::diag").
    split; [| done].
    unfold diag_batch_rule. rewrite Hmove. simpl. unfold rankWithoutBatchDim in *.
    destruct (decide (dim input - 1 = 1)); [done |].
    destruct (decide (dim input - 1 = 2)); done.
  - exists (torch_check "matrix or a vector expected").
    split; [| split; [done | by intros [? ?]]].
    unfold rankWithoutBatchDim, dim in *. unfold diag_batch_rule, at_diag.
    destruct (sizes input) as [| n [| m [| ? ?]]]; simpl in *; first [lia | done].
Qed.

(** A batched input of unbatched rank 3. *)
Lemma diag_batch_rule_invalid_rank_witness :
  diag_batch_rule (mkTensor 0 0 [2; 1; 1; 1] [1; 1; 1; 1]) (Some 0) 0 [[5; 6]]
  = Err (runtime_error "Passed in an invalid shape to at::diag").
Proof.
  destruct (diag_batch_rule_invalid_rank [[5; 6]] (mkTensor 0 0 [2; 1; 1; 1] [1; 1; 1; 1])
              (Some 0) 0) as (e & -> & _ & He).
  - intros b [= <-]. vm_compute. split; congruence.
  - vm_compute. congruence.
  - vm_compute. congruence.
  - by rewrite He.
Defined.

Lemma tabulate_default (h : heap) shape (f : list Z -> option Z) :
  (forall idx, in_range shape idx -> is_Some (f idx)) ->
  tabulate h shape f
  = Ok (new_tensor h shape ((fun idx => default 0 (f idx)) <$> all_indices shape)).
Proof.
  intros Hf. apply tabulate_ok. intros idx Hidx.
  by destruct (Hf idx Hidx) as [v ->].
Qed.

Lemma embed_elem_is_Some (h : heap) (t : Tensor) (n d i j : Z) pre :
  (forall p, 0 <= p < n -> is_Some (read h t (pre ++ [p]))) ->
  0 <= i < Z.abs d + n -> 0 <= j < Z.abs d + n ->
  is_Some (embed_elem h t (length pre) d (pre ++ [i; j])).
Proof.
  intros Hr Hi Hj. unfold embed_elem, vec_at.
  rewrite Nat2Z.id.
  replace (Z.to_nat (Z.of_nat (length pre) + 1)) with (length pre + 1)%nat by lia.
  rewrite (lookup_app_r pre) by lia. rewrite (lookup_app_r pre) by lia.
  replace (length pre - length pre)%nat with 0%nat by lia.
  replace (length pre + 1 - length pre)%nat with 1%nat by lia. simpl.
  rewrite take_app_length.
  case_decide; [apply Hr; lia | eauto].
Qed.

(** The rank-1 branch: the diagonal is embedded into the canonical input. *)
Lemma diag_rank1_core (h : heap) (input : Tensor) (b d : Z) :
  wf h input ->
  0 <= b < dim input ->
  rankWithoutBatchDim input (Some b) = 1 ->
  exists input_ B n,
    moveBatchDimToFront input (Some b) = Ok input_ /\
    wf h input_ /\
    sizes input_ = [B; n] /\
    B = vec_at (sizes input) b /\
    let r := new_tensor h [B; Z.abs d + n; Z.abs d + n]
               ((fun idx => default 0 (embed_elem h input_ 1 d idx))
                  <$> all_indices [B; Z.abs d + n; Z.abs d + n]) in
    diag_batch_rule input (Some b) d h = Ok ((r.1, Some 0), r.2).
Proof.
  intros Hwf Hb Hrank.
  destruct (canonical_shape h input b Hwf Hb)
    as (input_ & Hmove & Hwf_ & Hsto_ & Hlsz & Hlst & HB).
  unfold rankWithoutBatchDim, dim in Hrank.
  destruct (sizes input_) as [| B [| n [| ? ?]]] eqn:Hsz; simpl in Hlsz; try lia.
  destruct (wf_spec h input_ Hwf_) as (_ & _ & Hsto & Hread).
  exists input_, B, n.
  split; [done |]. split; [done |]. split; [done |]. split; [done |].
  unfold diag_batch_rule. rewrite Hmove. simpl.
  unfold rankWithoutBatchDim, dim.
  destruct (decide (Z.of_nat (length (sizes input)) - 1 = 1)); [| lia].
  unfold diag_embed, size, wrap_strict, dim. rewrite Hsz. simpl.
  rewrite tabulate_default; [done |].
  intros idx (k & i & j & -> & Hk & Hi & Hj)%in_range_3.
  apply (embed_elem_is_Some h input_ n d i j [k]); [| done | done].
  intros p Hp. apply Hread. rewrite Hsz. apply in_range_2. eauto 10.
Qed.

(** C1. With a batch dimension present, each batch slot of the output of
    the diag rule, taken at the batch dimension the rule reports, holds what
    the unbatched operator gives on that slot of the input: the matrix built
    around the diagonal for an input of unbatched rank 1, the extracted
    diagonal for an input of unbatched rank 2. *)
Theorem diag_batch_rule_slotwise (h : heap) (input : Tensor) (b d : Z) :
  wf h input ->
  0 <= b < dim input ->
  rankWithoutBatchDim input (Some b) = 1 \/ rankWithoutBatchDim input (Some b) = 2 ->
  exists out bd h',
    diag_batch_rule input (Some b) d h = Ok ((out, Some bd), h') /\
    forall k, 0 <= k < vec_at (sizes input) b ->
      exists slot r h2 oslot v,
        select input b k = Ok slot /\
        dim slot = rankWithoutBatchDim input (Some b) /\
        at_diag slot d h = Ok (r, h2) /\
        select out bd k = Ok oslot /\
        to_dense h' oslot = Some v /\
        to_dense h2 r = Some v.
Proof.
  intros Hwf Hb [Hrank | Hrank].
  - destruct (diag_rank1_core h input b d Hwf Hb Hrank)
      as (input_ & B & n & Hmove & Hwf_ & Hsz & HB & Hrule).
    destruct (wf_spec h input Hwf) as (Hlen & _).
    destruct (wf_spec h input_ Hwf_) as (_ & _ & _ & Hread).
    eexists _, 0, _. split; [exact Hrule |].
    intros k Hk.
    destruct (slot_canonical h input input_ b k Hlen Hb Hk Hmove)
      as (slot & Hslot & Hssz & Hsread).
    rewrite Hsz, vec_erase_0 in Hssz.
    destruct (slot_of_tabulated h B [Z.abs d + n; Z.abs d + n]
                (fun idx => default 0 (embed_elem h input_ 1 d idx)) k)
      as (oslot & Hoslot & Hodense); [lia |].
    assert (at_diag slot d h
            = Ok (new_tensor h [n + Z.abs d; n + Z.abs d]
                    ((fun idx => default 0 (embed_elem h slot 0 d idx))
                       <$> all_indices [n + Z.abs d; n + Z.abs d]))) as Hdiag.
    { unfold at_diag. rewrite Hssz. apply (tabulate_default h _ (embed_elem h slot 0 d)).
      intros idx (i & j & -> & Hi & Hj)%in_range_2.
      apply (embed_elem_is_Some h slot n d i j []); [| lia | lia].
      intros p Hp. simpl. rewrite Hsread. apply Hread.
      rewrite Hsz. apply in_range_2. exists k, p. repeat split; lia. }
    set (R := new_tensor h [n + Z.abs d; n + Z.abs d]
                ((fun idx => default 0 (embed_elem h slot 0 d idx))
                   <$> all_indices [n + Z.abs d; n + Z.abs d])) in *.
    eexists slot, R.1, R.2, oslot, _.
    split; [done |]. split; [unfold dim; by rewrite Hssz |].
    split; [exact Hdiag |]. split; [exact Hoslot |].
    split; [exact Hodense |].
    unfold R. rewrite to_dense_new_tensor.
    replace (n + Z.abs d) with (Z.abs d + n) by lia.
    do 2 f_equal. apply fmap_ext_in.
    intros idx (i & j & -> & Hi & Hj)%elem_of_all_indices%in_range_2.
    unfold embed_elem. simpl. unfold vec_at. simpl.
    case_decide; [| done]. by rewrite Hsread.
  - destruct (diag_rank2_core h input b d Hwf Hb Hrank)
      as (input_ & moved & view & B & n & m & Hmove & Hwf_ & Hsz & HB & _ & _ & _ & _
          & Hv & _ & Hrule).
    destruct (wf_spec h input Hwf) as (Hlen & _).
    eexists _, 0, _. split; [exact Hrule |].
    intros k Hk.
    destruct (slot_canonical h input input_ b k Hlen Hb Hk Hmove)
      as (slot & Hslot & Hssz & Hsread).
    rewrite Hsz, vec_erase_0 in Hssz.
    destruct (slot_of_tabulated h B [diag_len n m d]
                (fun idx => default 0 (read h view idx)) k)
      as (oslot & Hoslot & Hodense); [lia |].
    set (f2 := fun idx : list Z =>
                 read h slot [vec_at idx 0 + Z.max (- d) 0; vec_at idx 0 + Z.max d 0]).
    assert (at_diag slot d h
            = Ok (new_tensor h [diag_len n m d]
                    ((fun idx => default 0 (f2 idx)) <$> all_indices [diag_len n m d])))
      as Hdiag.
    { unfold at_diag. rewrite Hssz. apply (tabulate_default h _ f2).
      intros idx (i & -> & Hi)%in_range_1. unfold f2. rewrite vec_at_0, Hsread.
      destruct (Hv k i) as [Hs Heq]; [lia | lia |]. by rewrite <- Heq. }
    set (R := new_tensor h [diag_len n m d]
                ((fun idx => default 0 (f2 idx)) <$> all_indices [diag_len n m d])) in *.
    eexists slot, R.1, R.2, oslot, _.
    split; [done |]. split; [unfold dim; by rewrite Hssz |].
    split; [exact Hdiag |]. split; [exact Hoslot |].
    split; [exact Hodense |].
    unfold R. rewrite to_dense_new_tensor. do 2 f_equal. apply fmap_ext_in.
    intros idx (i & -> & Hi)%elem_of_all_indices%in_range_1.
    unfold f2. rewrite vec_at_0, Hsread.
    destruct (Hv k i) as [_ ->]; [lia | lia | done].
Qed.

(** Three slots of two elements, the batch axis last, offset 1: each slot
    of the output is the 3 x 3 matrix built around its slot of the input. *)
Lemma diag_batch_rule_slotwise_witness :
  exists out bd h',
    diag_batch_rule (mkTensor 0 0 [2; 3] [3; 1]) (Some 1) 1 [[10; 11; 12; 13; 14; 15]]
    = Ok ((out, Some bd), h') /\
    exists slot r h2 oslot v,
      select (mkTensor 0 0 [2; 3] [3; 1]) 1 2 = Ok slot /\
      at_diag slot 1 [[10; 11; 12; 13; 14; 15]] = Ok (r, h2) /\
      select out bd 2 = Ok oslot /\
      to_dense h' oslot = Some v /\
      to_dense h2 r = Some v.
Proof.
  destruct (diag_batch_rule_slotwise [[10; 11; 12; 13; 14; 15]]
              (mkTensor 0 0 [2; 3] [3; 1]) 1 1)
    as (out & bd & h' & Hrule & Hslots);
    [reflexivity | vm_compute; split; congruence | left; reflexivity |].
  exists out, bd, h'. split; [exact Hrule |].
  destruct (Hslots 2) as (slot & r & h2 & oslot & v & H1 & _ & H2 & H3 & H4 & H5);
    [vm_compute; split; congruence |].
  by exists slot, r, h2, oslot, v.
Defined.

Example diag_batch_rule_rank1_example :
  diag_batch_rule (mkTensor 0 0 [2; 3] [3; 1]) (Some 0) 1 [[10; 11; 12; 13; 14; 15]]
  = Ok ((mkTensor 1 0 [2; 4; 4] [16; 4; 1], Some 0),
        [[10; 11; 12; 13; 14; 15];
         [0; 10; 0; 0; 0; 0; 11; 0; 0; 0; 0; 12; 0; 0; 0; 0;
          0; 13; 0; 0; 0; 0; 14; 0; 0; 0; 0; 15; 0; 0; 0; 0]]).
Proof. reflexivity. Qed.

Example diag_batch_rule_rank2_example :
  diag_batch_rule (mkTensor 0 0 [2; 2; 3] [6; 3; 1]) (Some 0) 1
    [[0; 1; 2; 3; 4; 5; 6; 7; 8; 9; 10; 11]]
  = Ok ((mkTensor 1 0 [2; 2] [2; 1], Some 0),
        [[0; 1; 2; 3; 4; 5; 6; 7; 8; 9; 10; 11]; [1; 5; 7; 11]]).
Proof. reflexivity. Qed.

(** ** The repeat rule *)

(** When the rank already reaches [n] the padding loop does nothing. *)
Lemma repeat_pad_done (fuel : nat) (t : Tensor) (n : Z) :
  n <= dim t -> repeat_pad fuel t n = Ok t.
Proof. intros Hn. destruct fuel; simpl; case_decide; first [lia | done]. Qed.

(** Whatever the input, the fuel the rule gives the loop is enough. *)
Lemma repeat_pad_total (fuel : nat) (t : Tensor) (n : Z) :
  n - dim t <= Z.of_nat fuel ->
  repeat_pad fuel t n <> Err (undefined_behaviour "out of fuel").
Proof.
  revert t. induction fuel as [| fuel IH]; intros t Hf; simpl.
  - case_decide; [lia | done].
  - case_decide as Hlt; [| done].
    unfold unsqueeze at 1. unfold maybe_wrap_dim.
    repeat case_decide; simpl; try done.
    all: apply IH; unfold dim in *; simpl; rewrite length_insert_at; lia.
Qed.

Arguments repeat_pad : simpl never.

(** C7. For an input whose slots have shape [3], batch size [B] at the
    batch dimension and repeat factors [2], the repeat rule returns a tensor
    of shape [B; 6] with batch dimension 0 that is the stack of the results
    of [repeat [2]] on the slots of the input. *)
Theorem repeat_batch_rule_stacks (h : heap) (self : Tensor) (b B : Z) :
  wf h self ->
  0 <= b < dim self ->
  vec_at (sizes self) b = B ->
  vec_erase (sizes self) b = [3] ->
  exists out h' slots,
    repeat_batch_rule self (Some b) [2] h = Ok ((out, Some 0), h') /\
    sizes out = [B; 6] /\
    Forall2 (fun k v => exists slot r h2,
                 select self b k = Ok slot /\
                 sizes slot = [3] /\
                 repeat slot [2] h = Ok (r, h2) /\
                 to_dense h2 r = Some v)
            (seqZ 0 B) slots /\
    to_dense h' out = Some (stack [6] slots).
Proof.
  intros Hwf Hb HB Hinner.
  destruct (canonical_shape h self b Hwf Hb)
    as (self_ & Hmove & Hwf_ & Hsto_ & Hlsz & Hlst & HB_).
  destruct (moveBatchDimToFront_batched self b Hb) as (t' & Hmove' & _ & _ & Hsz & _).
  rewrite Hmove in Hmove'. injection Hmove' as <-.
  rewrite HB, Hinner in Hsz.
  destruct (wf_spec h self Hwf) as (Hlen & Hnn & _).
  destruct (wf_spec h self_ Hwf_) as (_ & _ & _ & Hread).
  assert (0 <= B) as HB0.
  { rewrite <- HB. apply (Forall_vec_at (fun n => 0 <= n)); [done | unfold dim in Hb; lia]. }
  set (f := fun idx : list Z => read h self_ (drop 0 (zip_with Z.modulo idx [B; 3]))).
  assert (forall k j, 0 <= k < B -> 0 <= j < 6 ->
            f [k; j] = read h self_ [k; j mod 3] /\ is_Some (f [k; j])) as Hf.
  { intros k j Hk Hj. unfold f. simpl. rewrite (Z.mod_small k B) by lia.
    split; [done |]. apply Hread. rewrite Hsz. apply in_range_2.
    exists k, (j mod 3). pose proof (Z.mod_pos_bound j 3). repeat split; lia. }
  set (g := fun idx => default 0 (f idx)).
  assert (repeat self_ [1; 2] h = Ok (new_tensor h [B; 6] (g <$> all_indices [B; 6])))
    as Hrep.
  { unfold repeat. rewrite Hsz. simpl. rewrite Z.mul_1_r.
    apply (tabulate_default h [B; 6] f).
    intros idx (k & j & -> & Hk & Hj)%in_range_2. by apply Hf. }
  exists (new_tensor h [B; 6] (g <$> all_indices [B; 6])).1,
         (new_tensor h [B; 6] (g <$> all_indices [B; 6])).2,
         ((fun k => mkDense [6] ((fun idx => g (k :: idx)) <$> all_indices [6]))
            <$> seqZ 0 B).
  split.
  { unfold repeat_batch_rule. rewrite Hmove. simpl.
    rewrite repeat_pad_done by (unfold dim; rewrite Hsz; simpl; lia).
    simpl. by rewrite Hrep. }
  split; [reflexivity |].
  split.
  - apply Forall2_fmap_r, Forall_Forall2_diag, Forall_forall.
    intros k Hk%elem_of_seqZ.
    destruct (slot_canonical h self self_ b k Hlen Hb) as (slot & Hslot & Hssz & Hsread);
      [lia | done |].
    rewrite Hsz, vec_erase_0 in Hssz.
    set (f2 := fun idx : list Z => read h slot (drop 0 (zip_with Z.modulo idx [3]))).
    assert (repeat slot [2] h
            = Ok (new_tensor h [6] ((fun idx => default 0 (f2 idx)) <$> all_indices [6])))
      as Hrep2.
    { unfold repeat. rewrite Hssz. simpl.
      apply (tabulate_default h [6] f2).
      intros idx (j & -> & Hj)%in_range_1. unfold f2. simpl. rewrite Hsread.
      destruct (Hf k j) as [<- Hs]; [lia | lia | done]. }
    set (R := new_tensor h [6] ((fun idx => default 0 (f2 idx)) <$> all_indices [6])) in *.
    exists slot, R.1, R.2.
    split; [done |]. split; [done |]. split; [exact Hrep2 |].
    unfold R. rewrite to_dense_new_tensor. do 2 f_equal. apply fmap_ext_in.
    intros idx (j & -> & Hj)%elem_of_all_indices%in_range_1.
    unfold g, f2. simpl. rewrite Hsread.
    destruct (Hf k j) as [-> _]; [lia | lia | done].
  - apply (to_dense_stack _ _ B [6] g); [reflexivity | done |].
    intros idx Hidx. by apply read_tabulated.
Qed.

(** Batch size 2 at batch dimension 1. *)
Lemma repeat_batch_rule_stacks_witness :
  exists out h',
    repeat_batch_rule (mkTensor 0 0 [3; 2] [2; 1]) (Some 1) [2] [[10; 11; 12; 13; 14; 15]]
    = Ok ((out, Some 0), h') /\
    sizes out = [2; 6].
Proof.
  destruct (repeat_batch_rule_stacks [[10; 11; 12; 13; 14; 15]]
              (mkTensor 0 0 [3; 2] [2; 1]) 1 2)
    as (out & h' & slots & Hrule & Hsz & _);
    [reflexivity | vm_compute; split; congruence | reflexivity | reflexivity |].
  by exists out, h'.
Defined.

(** ** The trace decomposition *)

Arguments diag_len : simpl never.

Lemma all_indices_1 (n : Z) : all_indices [n] = (fun i => [i]) <$> seqZ 0 n.
Proof.
  rewrite all_indices_cons. generalize (seqZ 0 n) as l.
  induction l as [| i l IH]; [done |]. rewrite bind_cons, IH. reflexivity.
Qed.

Lemma mapM_fmap_option {A B C} (f : B -> option C) (g : A -> B) (l : list A) :
  mapM f (g <$> l) = mapM (fun x => f (g x)) l.
Proof. induction l as [| x l IH]; [done |]. rewrite fmap_cons. csimpl.
  apply option_bind_ext; [intros y | done].
  apply option_bind_ext; [done | exact IH].
Qed.

(** C9. What is registered for trace is the decomposition, which is the
    sum over the main diagonal view of its argument and nothing else: it
    takes no batch dimension and reports none.  On every matrix it returns
    what the native trace returns, the same rank-0 tensor in the same
    heap. *)
Theorem trace_decomp_refines_trace (h : heap) (self : Tensor) :
  wf h self ->
  dim self = 2 ->
  registered "trace" = Some (impl_decomposition trace_decomp) /\
  trace_decomp self h = (d ← diagonal self 0 0 1; sum d h) /\
  exists r h',
    trace_decomp self h = Ok (r, h') /\
    at_trace self h = Ok (r, h') /\
    sizes r = [] /\
    is_Some (read h' r []).
Proof.
  intros Hwf Hdim. split; [reflexivity |]. split; [reflexivity |].
  destruct (wf_spec h self Hwf) as (Hlen & Hnn & Hsto & Hread).
  unfold dim in Hdim.
  destruct (sizes self) as [| n [| m [| ? ?]]] eqn:Hsz; simpl in Hdim; try lia.
  destruct (strides self) as [| rn [| rm [| ? ?]]] eqn:Hst; simpl in Hlen; try lia.
  inversion Hnn as [| ? ? Hn Hnn']; subst. inversion Hnn' as [| ? ? Hm _]; subst.
  assert (diag_len n m 0 = Z.min n m) as HL by (unfold diag_len; case_decide; lia).
  set (g := fun i : Z => default 0 (read h self [i; i])).
  assert (forall i, i ∈ seqZ 0 (Z.min n m) -> read h self [i; i] = Some (g i)) as Hg.
  { intros i Hi%elem_of_seqZ. unfold g.
    destruct (Hread [i; i]) as [v ->]; [| done].
    apply in_range_2. exists i, i. repeat split; lia. }
  assert (at_trace self h = Ok (new_tensor h [] [foldl add64 0 (g <$> seqZ 0 (Z.min n m))]))
    as Htrace.
  { unfold at_trace. rewrite Hsz. by rewrite (mapM_tabulated _ g). }
  assert (trace_decomp self h
          = Ok (new_tensor h [] [foldl add64 0 (g <$> seqZ 0 (Z.min n m))])) as Hdecomp.
  { unfold trace_decomp, diagonal, dim. rewrite Hsz, Hst. simpl.
    unfold sum, vec_at. simpl. rewrite HL, all_indices_1, mapM_fmap_option.
    rewrite (mapM_tabulated _ g); [done |].
    intros i Hi. rewrite <- (Hg i Hi). apply read_flat; [done |].
    unfold flat_index. simpl. rewrite Hst. simpl.
    destruct (decide (Z.min n m = 0)); lia. }
  eexists _, _. split; [exact Hdecomp |]. split; [exact Htrace |].
  split; [reflexivity |].
  unfold read, flat_index. simpl. rewrite list_lookup_middle by done. simpl. eauto.
Qed.

(** The matrix with rows [10 11 12] and [13 14 15]: its trace is 24. *)
Lemma trace_decomp_refines_trace_witness :
  exists r h',
    trace_decomp (mkTensor 0 0 [2; 3] [3; 1]) [[10; 11; 12; 13; 14; 15]] = Ok (r, h') /\
    at_trace (mkTensor 0 0 [2; 3] [3; 1]) [[10; 11; 12; 13; 14; 15]] = Ok (r, h').
Proof.
  destruct (trace_decomp_refines_trace [[10; 11; 12; 13; 14; 15]]
              (mkTensor 0 0 [2; 3] [3; 1])) as (_ & _ & r & h' & H1 & H2 & _);
    [reflexivity | reflexivity |].
  by exists r, h'.
Defined.

Example trace_decomp_example :
  trace_decomp (mkTensor 0 0 [2; 3] [3; 1]) [[10; 11; 12; 13; 14; 15]]
  = Ok (mkTensor 1 0 [] [], [[10; 11; 12; 13; 14; 15]; [24]]).
Proof. reflexivity. Qed.

(** ** The rules without a batch dimension *)

(** Without a batch dimension the diag rule is the plain operator, and it
    reports no batch dimension. *)
Lemma diag_batch_rule_unbatched (h : heap) (input : Tensor) (d : Z) :
  diag_batch_rule input None d h = ('(r, h') ← at_diag input d h; Ok ((r, None), h')).
Proof. reflexivity. Qed.

(** C2. Called without a batch dimension on a vector of three elements, the
    unsqueeze, repeat and flip rules do not return what the plain operators
    return: unsqueeze and repeat give another shape and report batch
    dimension 0, flip fails on an axis the plain operator accepts (and on a
    matrix reverses another axis), and the [_unsafe_view] rule dereferences
    the absent index.  Only the diag rule takes the plain path. *)
Theorem no_batch_path_evaluated :
  let t := mkTensor 0 0 [3] [1] in
  let h := [[7; 8; 9]] in
  (unsqueeze_batch_rule t None 0 = Ok (mkTensor 0 0 [3; 1] [1; 1], Some 0) /\
   unsqueeze t 0 = Ok (mkTensor 0 0 [1; 3] [3; 1])) /\
  (repeat_batch_rule t None [2] h
   = Ok ((mkTensor 1 0 [3; 2] [2; 1], Some 0), [[7; 8; 9]; [7; 7; 8; 8; 9; 9]]) /\
   repeat t [2] h = Ok (mkTensor 1 0 [6] [1], [[7; 8; 9]; [7; 8; 9; 7; 8; 9]])) /\
  (flip_batch_rule t None [0] h = Err (index_error "Dimension out of range") /\
   flip t [0] h = Ok (mkTensor 1 0 [3] [1], [[7; 8; 9]; [9; 8; 7]])) /\
  (flip_batch_rule (mkTensor 0 0 [2; 3] [3; 1]) None [0] [[1; 2; 3; 4; 5; 6]]
   = Ok ((mkTensor 1 0 [2; 3] [3; 1], Some 0), [[1; 2; 3; 4; 5; 6]; [3; 2; 1; 6; 5; 4]]) /\
   flip (mkTensor 0 0 [2; 3] [3; 1]) [0] [[1; 2; 3; 4; 5; 6]]
   = Ok (mkTensor 1 0 [2; 3] [3; 1], [[1; 2; 3; 4; 5; 6]; [4; 5; 6; 1; 2; 3]])) /\
  _unsafe_view_batch_rule t None [3]
  = Err (undefined_behaviour "dereference of an empty optional") /\
  diag_batch_rule t None 0 h
  = Ok ((mkTensor 1 0 [3; 3] [3; 1], None), [[7; 8; 9]; [7; 0; 0; 0; 8; 0; 0; 0; 9]]) /\
  at_diag t 0 h = Ok (mkTensor 1 0 [3; 3] [3; 1], [[7; 8; 9]; [7; 0; 0; 0; 8; 0; 0; 0; 9]]).
Proof. vm_compute. repeat split; reflexivity. Qed.

(** ** The resize plumbing *)

Module ResizeFacts.
Import Resize.

(** C5. When the input unwraps, at the current level, to a batch dimension
    other than 0, the resize plumbing ends with the not-yet-implemented
    error, which goes to the caller as the result of the call; nothing has
    been changed by then.  With batch dimension 0 that error does not
    arise. *)
Theorem resize_plumbing_nonzero_bdim (w : World) (self self_value : TensorRef)
    (size_ : list Z) (fmt : option MemoryFormat) (cur_level b : Z) :
  memory_format_supported fmt = true ->
  maybeCurrentDynamicLayer w = Some cur_level ->
  unwrapTensorAtLevel w self cur_level = Ok (self_value, Some b) ->
  (b <> 0 ->
   resize__plumbing self size_ fmt w
   = Err (internal_assert "NYI: resize_ batch rule for batch dim != 0")) /\
  (b = 0 ->
   resize__plumbing self size_ fmt w
   <> Err (internal_assert "NYI: resize_ batch rule for batch dim != 0")).
Proof.
  intros Hfmt Hlayer Hunwrap. unfold resize__plumbing.
  rewrite Hfmt, Hlayer, Hunwrap. simpl. split.
  - intros Hb. by rewrite bool_decide_eq_false_2.
  - intros ->. simpl. unfold with_excluded_key. simpl.
    destruct (geometry _ _) as [t |] eqn:Hgeo; simpl.
    2: { intros [= ->]. unfold geometry in Hgeo. repeat (case_match; simplify_eq). }
    destruct (size t 0) as [n |] eqn:Hsize; simpl.
    2: { intros [= ->]. unfold size, wrap_strict, maybe_wrap_dim in Hsize.
         repeat (case_match; simplify_eq). }
    unfold vec_insert. destruct (decide _) as [_ | _]; simpl; [| done].
    destruct (resize_ _ _ _) as [w1 |] eqn:Hres; simpl.
    2: { intros [= ->]. unfold resize_ in Hres. repeat (case_match; simplify_eq). }
    destruct (maybeGetBatchedImpl self); simpl; [| done].
    destruct (refreshSizesAndStrides _ _) eqn:Href; simpl; [done |].
    intros [= ->]. unfold refreshSizesAndStrides in Href.
    repeat (case_match; simplify_eq).
Qed.

(** A wrapper at level 1 with batch dimension 1. *)
Lemma resize_plumbing_nonzero_bdim_witness :
  resize__plumbing (BatchedRef 0) [6] None
    (mkWorld [[0; 1; 2; 3]] [mkTensor 0 0 [2; 2] [2; 1]] [mkBatched 0 1 1 [2] [2]] [1]
       false (fun _ => 0))
  = Err (internal_assert "NYI: resize_ batch rule for batch dim != 0").
Proof.
  refine (proj1 (resize_plumbing_nonzero_bdim
                   (mkWorld [[0; 1; 2; 3]] [mkTensor 0 0 [2; 2] [2; 1]]
                      [mkBatched 0 1 1 [2] [2]] [1] false (fun _ => 0))
                   (BatchedRef 0) (PlainRef 0) [6] None 1 1
                   eq_refl eq_refl eq_refl) _).
  lia.
Defined.

Lemma length_grow (junk : nat -> Z) (data : list Z) (n : Z) :
  Z.of_nat (length (grow junk data n)) = Z.max (Z.of_nat (length data)) n.
Proof. unfold grow. rewrite length_app, length_fmap, length_seq. lia. Qed.

Lemma take_grow (junk : nat -> Z) (data : list Z) (n : Z) :
  take (length data) (grow junk data n) = data.
Proof. unfold grow. by rewrite take_app_length. Qed.

Arguments resize_ : simpl never.

(** On two slots of four elements the resize to six elements per slot
    returns the wrapper it was given, but the second slot does not keep
    its first four columns. *)
Lemma resize_plumbing_slots_counterexample :
  exists w',
    resize__plumbing (BatchedRef 0) [6] None two_slots = Ok (BatchedRef 0, w') /\
    read_value two_slots 0 [1; 0] = Some 4 /\
    read_value w' 0 [1; 0] = Some 6 /\
    ~ slots_preserved two_slots w' 0 2 4.
Proof.
  eexists. split; [vm_compute; reflexivity |].
  split; [reflexivity |]. split; [reflexivity |].
  intros H. specialize (H 1 0). vm_compute in H.
  assert (Some 6 = Some 4) as Heq by (apply H; split; congruence).
  discriminate Heq.
Qed.

(** C6, amended. With batch dimension 0, resizing a contiguous batched
    tensor of slot shape [4] and batch size [B] to slot shape [6] gives the
    underlying tensor the shape [B; 6] with contiguous strides, refreshes
    the sizes the wrapper shows to [6], and returns the wrapper it was
    given.  The storage keeps the elements it had at their flat positions:
    the element at [k; j] of the resized tensor is the one at flat position
    [6 k + j], so the first four columns of slot 0 are the original ones. *)
Theorem resize_plumbing_grows (w : World) (i : nat) (bt : BatchedTensorImpl)
    (t : Tensor) (data : list Z) (B cur_level : Z) (fmt : option MemoryFormat) :
  memory_format_supported fmt = true ->
  maybeCurrentDynamicLayer w = Some cur_level ->
  wrappers w !! i = Some bt ->
  level_ bt = cur_level ->
  bdim_ bt = 0 ->
  tensors w !! value_ bt = Some t ->
  sizes t = [B; 4] ->
  strides t = [4; 1] ->
  storage_offset t = 0 ->
  0 <= B ->
  storages w !! storage t = Some data ->
  4 * B <= Z.of_nat (length data) ->
  exists w' data',
    resize__plumbing (BatchedRef i) [6] fmt w = Ok (BatchedRef i, w') /\
    tensors w' !! value_ bt = Some (mkTensor (storage t) 0 [B; 6] [6; 1]) /\
    wrappers w' !! i = Some (mkBatched (value_ bt) 0 cur_level [6] [1]) /\
    storages w' !! storage t = Some data' /\
    take (length data) data' = data /\
    6 * B <= Z.of_nat (length data') /\
    (forall k j, 0 <= k < B -> 0 <= j < 6 ->
       read_value w' (value_ bt) [k; j] = data' !! Z.to_nat (6 * k + j)) /\
    (forall j, 0 < B -> 0 <= j < 4 ->
       read_value w' (value_ bt) [0; j] = read_value w (value_ bt) [0; j]) /\
    batched_key_excluded w' = batched_key_excluded w.
Proof.
  intros Hfmt Hlayer Hwrap Hlevel Hbdim Hten Hsz Hst Hoff HB Hsto Hlen.
  set (t' := mkTensor (storage t) 0 [B; 6] [6; 1]).
  set (data' := if decide (B > 0) then grow (uninit w) data (B * 6) else data).
  set (bt' := mkBatched (value_ bt) 0 cur_level [6] [1]).
  set (w' := mkWorld (<[storage t := data']> (storages w))
               (<[value_ bt := t']> (tensors w))
               (<[i := bt']> (wrappers w))
               (dynamic_layers w) (batched_key_excluded w) (uninit w)).
  assert (resize_ (PlainRef (value_ bt)) [B; 6] (set_excluded w true)
          = Ok (mkWorld (<[storage t := data']> (storages w))
                  (<[value_ bt := t']> (tensors w)) (wrappers w)
                  (dynamic_layers w) true (uninit w))) as Hres.
  { unfold resize_. simpl. rewrite Hten, Hsz.
    rewrite bool_decide_eq_false_2 by congruence.
    simpl. rewrite !bool_decide_eq_true_2 by lia. simpl.
    rewrite Hoff. unfold data'.
    change (contiguous_strides [B; 6]) with [6; 1].
    replace (B * (6 * 1) + 0) with (B * 6) by lia.
    destruct (decide (B * (6 * 1) > 0)); destruct (decide (B > 0)); try lia.
    - by rewrite Hsto.
    - unfold set_tensors. simpl. by rewrite (list_insert_id (storages w)). }
  assert (take (length data) data' = data) as Htake.
  { unfold data'. case_decide; [apply take_grow | apply firstn_all]. }
  assert (6 * B <= Z.of_nat (length data')) as Hlen'.
  { unfold data'. case_decide; [rewrite length_grow |]; lia. }
  apply lookup_lt_Some in Hten as Hlt_t. apply lookup_lt_Some in Hsto as Hlt_s.
  apply lookup_lt_Some in Hwrap as Hlt_w.
  exists w', data'.
  split.
  { unfold resize__plumbing. rewrite Hfmt, Hlayer. simpl. rewrite Hwrap.
    rewrite decide_True by done. simpl. rewrite Hbdim. simpl.
    unfold with_excluded_key. simpl. rewrite Hten. simpl.
    unfold size, wrap_strict, dim. rewrite Hsz. simpl. rewrite vec_at_0.
    rewrite Hres. simpl.
    unfold refreshSizesAndStrides. simpl. rewrite Hwrap.
    rewrite list_lookup_insert_eq by done. simpl.
    rewrite Hbdim, Hlevel. reflexivity. }
  split; [simpl; by rewrite list_lookup_insert_eq |].
  split; [simpl; by rewrite list_lookup_insert_eq |].
  split; [simpl; by rewrite list_lookup_insert_eq |].
  split; [exact Htake |].
  split; [done |].
  assert (forall k j, 0 <= k < B -> 0 <= j < 6 ->
            read_value w' (value_ bt) [k; j] = data' !! Z.to_nat (6 * k + j)) as Hread.
  { intros k j Hk Hj. unfold read_value. simpl.
    rewrite list_lookup_insert_eq by done. simpl.
    unfold read, flat_index. simpl. rewrite list_lookup_insert_eq by done. simpl.
    rewrite decide_True by lia. f_equal. lia. }
  split; [exact Hread |].
  split; [| reflexivity].
  intros j HB0 Hj. rewrite Hread by lia.
  unfold read_value. rewrite Hten. simpl. unfold read, flat_index.
  rewrite Hsto, Hoff, Hst. simpl. rewrite decide_True by lia.
  replace (Z.to_nat (0 + (0 * 4 + (j * 1 + 0)))) with (Z.to_nat (6 * 0 + j)) by lia.
  rewrite <- Htake at 1. by rewrite lookup_take_lt by lia.
Qed.

(** The two slots [0 1 2 3] and [4 5 6 7]. *)
Lemma resize_plumbing_grows_witness :
  exists w',
    resize__plumbing (BatchedRef 0) [6] None two_slots = Ok (BatchedRef 0, w') /\
    tensors w' !! 0%nat = Some (mkTensor 0 0 [2; 6] [6; 1]).
Proof.
  destruct (resize_plumbing_grows two_slots 0 (mkBatched 0 0 1 [4] [1])
              (mkTensor 0 0 [2; 4] [4; 1]) [0; 1; 2; 3; 4; 5; 6; 7] 2 1 None
              eq_refl eq_refl eq_refl eq_refl eq_refl eq_refl eq_refl eq_refl eq_refl)
    as (w' & data' & Hcall & Hten & _); [lia | reflexivity | simpl; lia |].
  by exists w'.
Defined.

End ResizeFacts.

(** * Further properties of the rules *)

(** ** unsqueeze: slots, contents and errors *)

Lemma vec_at_S (a : Z) v pos : 0 <= pos -> vec_at (a :: v) (pos + 1) = vec_at v pos.
Proof.
  intros Hp. unfold vec_at. replace (Z.to_nat (pos + 1)) with (S (Z.to_nat pos)) by lia.
  reflexivity.
Qed.

Lemma all_indices_insert_one (shape : list Z) (p : nat) :
  all_indices (insert_at shape (Z.of_nat p) 1)
  = (fun idx => insert_at idx (Z.of_nat p) 0) <$> all_indices shape.
Proof.
  unfold insert_at. rewrite Nat2Z.id. revert shape.
  induction p as [| p IH]; intros shape.
  - simpl. rewrite !drop_0. rewrite all_indices_cons.
    change (seqZ 0 1) with [0]. rewrite bind_cons. simpl.
    etrans; [apply app_nil_r |].
    apply list_fmap_ext. intros i idx _. by rewrite drop_0.
  - destruct shape as [| n rest]; simpl.
    + rewrite all_indices_cons. change (seqZ 0 1) with [0].
      rewrite bind_cons. simpl. done.
    + rewrite !all_indices_cons, IH.
      generalize (seqZ 0 n) as l. induction l as [| i l IHl]; [done |].
      rewrite !bind_cons, fmap_app, IHl. f_equal.
      rewrite <- !list_fmap_compose. reflexivity.
Qed.

Lemma mapM_ext_elem {A B} (f g : A -> option B) (l : list A) :
  (forall x, x ∈ l -> f x = g x) -> mapM f l = mapM g l.
Proof.
  induction l as [| x l IH]; intros H; [done |].
  csimpl. rewrite (H x) by left.
  apply option_bind_ext; [intros y | done].
  apply option_bind_ext; [done |].
  apply IH. intros z Hz. apply H. by right.
Qed.

(** Inserting a singleton axis changes neither the elements nor their
    row-major order. *)
Lemma to_dense_unsqueeze (h : heap) (t out : Tensor) (d : Z) :
  length (strides t) = length (sizes t) ->
  unsqueeze t d = Ok out ->
  to_dense h out = (fun v => mkDense (sizes out) (elems v)) <$> to_dense h t.
Proof.
  intros Hlen. unfold unsqueeze.
  destruct (maybe_wrap_dim d (dim t + 1)) as [w |] eqn:Hw; [| done]. simpl.
  intros [= <-]. apply maybe_wrap_dim_range in Hw. unfold dim in Hw.
  destruct (Z_of_nat_complete w) as [p ->]; [lia |].
  unfold to_dense. simpl.
  rewrite all_indices_insert_one, mapM_fmap_option.
  match goal with
  | |- context [mapM ?f (all_indices (sizes t)) ≫= _] =>
    assert (mapM f (all_indices (sizes t)) = mapM (read h t) (all_indices (sizes t))) as ->
  end.
  { apply mapM_ext_elem. intros idx Hidx%elem_of_all_indices%in_range_length.
    apply read_flat; [done |]. unfold flat_index. simpl.
    rewrite dot_insert_at by lia. lia. }
  by destruct (mapM (read h t) (all_indices (sizes t))).
Qed.

Lemma moveBatchDimToFront_valid (h : heap) (t : Tensor) (bdim : option Z) :
  valid_bdim t bdim ->
  exists t_,
    moveBatchDimToFront t bdim = Ok t_ /\
    dim t_ = dim t /\
    storage t_ = storage t /\
    storage_offset t_ = storage_offset t /\
    (wf h t -> wf h t_).
Proof.
  intros Hv. destruct bdim as [b |].
  - specialize (Hv b eq_refl).
    destruct (moveBatchDimToFront_batched t b Hv) as (t_ & Hmove & Hst & Hoff & _).
    exists t_. split; [done |]. split; [by apply dim_moveBatchDimToFront in Hmove |].
    split; [done |]. split; [done |].
    intros Hwf. by apply (wf_moveBatchDimToFront h t t_ b).
  - exists t. by repeat split.
Qed.

Lemma wf_unsqueeze (h : heap) (t out : Tensor) (d : Z) :
  wf h t -> unsqueeze t d = Ok out -> wf h out.
Proof.
  intros Hwf Hun. destruct (wf_spec h t Hwf) as (Hlen & Hnn & Hsto & Hread).
  revert Hun. unfold unsqueeze.
  destruct (maybe_wrap_dim d (dim t + 1)) as [w |] eqn:Hw; [| done]. simpl.
  intros [= <-]. apply maybe_wrap_dim_range in Hw. unfold dim in Hw.
  destruct (Z_of_nat_complete w) as [p ->]; [lia |].
  apply wf_intro; simpl.
  - by rewrite !length_insert_at, Hlen.
  - unfold insert_at. apply Forall_app. split; [by apply Forall_take |].
    constructor; [lia | by apply Forall_drop].
  - done.
  - intros idx' Hidx'%elem_of_all_indices.
    rewrite all_indices_insert_one in Hidx'.
    apply list_elem_of_fmap in Hidx' as (idx & -> & Hidx%elem_of_all_indices).
    pose proof (in_range_length _ _ Hidx) as Hl.
    match goal with |- is_Some (read h ?u _) =>
      rewrite (read_flat h u t _ idx) end; [by apply Hread | done |].
    unfold flat_index. simpl. rewrite dot_insert_at by lia. lia.
Qed.

(** X1. Each slot of the output of the unsqueeze rule is the unsqueeze, at
    the caller's logical dimension, of that slot of the input: the very
    same view, not only the same contents. *)
Theorem unsqueeze_batch_rule_slotwise (self : Tensor) (b d : Z) :
  length (strides self) = length (sizes self) ->
  0 <= b < dim self ->
  - dim self <= d < dim self ->
  exists out,
    unsqueeze_batch_rule self (Some b) d = Ok (out, Some 0) /\
    forall k, 0 <= k < vec_at (sizes self) b ->
      exists slot oslot,
        select self b k = Ok slot /\
        select out 0 k = Ok oslot /\
        unsqueeze slot d = Ok oslot.
Proof.
  intros Hlen Hb Hd.
  destruct (moveBatchDimToFront_batched self b Hb)
    as (self_ & Hmove & Hst & Hoff & Hsz & Hstr). specialize (Hstr Hlen).
  assert (dim self_ = dim self) as Hdim by (by apply dim_moveBatchDimToFront in Hmove).
  set (w := if decide (d < 0) then d + dim self else d).
  assert (0 <= w < dim self) as Hw by (unfold w; case_decide; lia).
  assert (maybe_wrap_dim d (dim self) = Ok w) as Hwrap
      by (apply maybe_wrap_dim_ok; lia).
  eexists. split.
  { unfold unsqueeze_batch_rule. rewrite Hmove. simpl.
    replace (dim self - 1 + 1) with (dim self) by lia. rewrite Hwrap. simpl.
    rewrite unsqueeze_ok by lia. reflexivity. }
  intros k Hk.
  assert (select self b k
          = Ok (mkTensor (storage self) (storage_offset self + k * vec_at (strides self) b)
                  (vec_erase (sizes self) b) (vec_erase (strides self) b))) as Hslot
      by (by apply select_ok).
  eexists _, _. split; [exact Hslot |].
  assert (length (vec_erase (sizes self) b) = Z.to_nat (dim self - 1)) as Hl1
      by (unfold dim in *; rewrite length_vec_erase; lia).
  split.
  - rewrite select_ok; simpl.
    + reflexivity.
    + unfold dim. simpl. rewrite length_insert_at. lia.
    + rewrite Hsz. rewrite insert_at_S by lia. rewrite vec_at_0. lia.
  - unfold unsqueeze, dim. simpl. rewrite Hl1.
    replace (Z.of_nat (Z.to_nat (dim self - 1)) + 1) with (dim self) by lia.
    rewrite Hwrap. simpl. f_equal.
    rewrite Hst, Hoff, Hsz, Hstr, !insert_at_S, !vec_at_0, !vec_erase_0 by lia.
    rewrite !vec_at_S by lia. f_equal.
    f_equal. unfold dim in *. simpl. rewrite Hl1.
    repeat case_decide; try lia; reflexivity.
Qed.

(** Three slots of two elements with the batch axis last. *)
Lemma unsqueeze_batch_rule_slotwise_witness :
  exists out slot oslot,
    unsqueeze_batch_rule (mkTensor 0 0 [2; 3] [3; 1]) (Some 1) (-1) = Ok (out, Some 0) /\
    select (mkTensor 0 0 [2; 3] [3; 1]) 1 2 = Ok slot /\
    select out 0 2 = Ok oslot /\
    unsqueeze slot (-1) = Ok oslot.
Proof.
  destruct (unsqueeze_batch_rule_slotwise (mkTensor 0 0 [2; 3] [3; 1]) 1 (-1))
    as (out & Hrule & Hslots);
    [reflexivity | vm_compute; split; congruence | vm_compute; split; congruence |].
  destruct (Hslots 2) as (slot & oslot & H1 & H2 & H3); [vm_compute; split; congruence |].
  by exists out, slot, oslot.
Defined.

(** X2. Whatever the batch dimension, the result of the unsqueeze rule is a
    view of the storage of its input, holds the elements of the canonical
    input in the same row-major order, and is well formed when the input
    is. *)
Theorem unsqueeze_batch_rule_is_view (h : heap) (self out : Tensor)
    (bdim bd : option Z) (d : Z) :
  wf h self ->
  valid_bdim self bdim ->
  unsqueeze_batch_rule self bdim d = Ok (out, bd) ->
  storage out = storage self /\
  storage_offset out = storage_offset self /\
  wf h out /\
  dim out = dim self + 1 /\
  exists self_,
    moveBatchDimToFront self bdim = Ok self_ /\
    to_dense h out = (fun v => mkDense (sizes out) (elems v)) <$> to_dense h self_.
Proof.
  intros Hwf Hv. unfold unsqueeze_batch_rule.
  destruct (moveBatchDimToFront_valid h self bdim Hv)
    as (self_ & -> & Hdim & Hst & Hoff & Hwf_). simpl.
  specialize (Hwf_ Hwf). destruct (wf_spec h self_ Hwf_) as (Hlen & _).
  destruct (maybe_wrap_dim d _) as [w |]; [| done]. simpl.
  destruct (unsqueeze self_ (w + 1)) as [r |] eqn:Hun; [| done]. simpl.
  intros [= <- <-].
  assert (storage r = storage self_ /\ storage_offset r = storage_offset self_
          /\ dim r = dim self_ + 1) as (H1 & H2 & H3).
  { revert Hun. unfold unsqueeze. destruct (maybe_wrap_dim _ _); [| done]. simpl.
    intros [= <-]. unfold dim. simpl. rewrite length_insert_at. repeat split; lia. }
  split; [congruence |]. split; [congruence |].
  split; [by apply (wf_unsqueeze h self_ r (w + 1)) |].
  split; [lia |].
  exists self_. split; [done |]. by apply (to_dense_unsqueeze h self_ r (w + 1)).
Qed.

Lemma unsqueeze_batch_rule_is_view_witness :
  wf [[10; 11; 12; 13; 14; 15]]
     (mkTensor 0 0 [3; 2; 1] [1; 3; 1]).
Proof.
  refine (proj1 (proj2 (proj2 (unsqueeze_batch_rule_is_view [[10; 11; 12; 13; 14; 15]]
            (mkTensor 0 0 [2; 3] [3; 1]) (mkTensor 0 0 [3; 2; 1] [1; 3; 1])
            (Some 1) (Some 0) (-1) eq_refl _ eq_refl)))).
  intros b [= <-]. vm_compute. split; congruence.
Defined.

(** X3. A logical dimension outside [[-(rank + 1), rank]], the rank taken
    without the batch dimension, is refused with an index error; the rank
    with the batch axis counted is not what the range is taken from. *)
Theorem unsqueeze_batch_rule_out_of_range (self : Tensor) (bdim : option Z) (d : Z) :
  valid_bdim self bdim ->
  d < - (rankWithoutBatchDim self bdim + 1) \/ rankWithoutBatchDim self bdim < d ->
  unsqueeze_batch_rule self bdim d = Err (index_error "Dimension out of range").
Proof.
  intros Hv Hd. unfold unsqueeze_batch_rule.
  destruct (moveBatchDimToFront_valid [] self bdim Hv) as (self_ & -> & _). simpl.
  assert (0 <= rankWithoutBatchDim self bdim) as Hr.
  { unfold rankWithoutBatchDim, valid_bdim, dim in *.
    destruct bdim as [b |]; [specialize (Hv b eq_refl) |]; lia. }
  unfold maybe_wrap_dim. repeat case_decide; try lia; reflexivity.
Qed.

(** Per-slot rank 1 and logical dimension 2: axis 2 exists in the batched
    tensor, but not in a slot after the insertion. *)
Lemma unsqueeze_batch_rule_out_of_range_witness :
  unsqueeze_batch_rule (mkTensor 0 0 [2; 3] [3; 1]) (Some 0) 2
  = Err (index_error "Dimension out of range").
Proof.
  apply unsqueeze_batch_rule_out_of_range.
  - intros b [= <-]. vm_compute. split; congruence.
  - right. vm_compute. reflexivity.
Defined.

(** ** What the rules do to the heap *)

Lemma mapM_length {A B} (f : A -> option B) (l : list A) (k : list B) :
  mapM f l = Some k -> length k = length l.
Proof. intros H%mapM_Some_1. symmetry. by eapply Forall2_length. Qed.

Lemma tabulate_allocates (h : heap) shape f (out : Tensor) (h' : heap) :
  tabulate h shape f = Ok (out, h') -> allocates h out h' /\ sizes out = shape.
Proof.
  unfold tabulate. destruct (mapM f (all_indices shape)) as [data |] eqn:Hdata; [| done].
  intros [= <- <-]. split; [| done]. exists data. simpl.
  repeat split; [by apply bool_decide_eq_true | by apply mapM_length in Hdata].
Qed.


(** A dense tensor over its own storage reads at every index of its
    shape. *)
Lemma allocates_wf (h h' : heap) (out : Tensor) :
  allocates h out h' -> Forall (fun n => 0 <= n) (sizes out) -> wf h' out.
Proof.
  intros (data & -> & Hsto & Hoff & Hc & Hlen) Hnn.
  apply bool_decide_eq_true in Hc.
  apply wf_intro.
  - rewrite Hc. clear. induction (sizes out) as [| n l IH]; [done |]. simpl. by rewrite IH.
  - done.
  - rewrite Hsto, length_app. simpl. lia.
  - intros idx Hidx. unfold read, flat_index.
    rewrite Hsto, list_lookup_middle, Hoff, Hc by done. simpl.
    destruct (lookup_all_indices _ _ Hidx) as [H0 Hl].
    rewrite decide_True by lia. apply lookup_lt_is_Some. rewrite Hlen.
    apply lookup_lt_Some in Hl. lia.
Qed.



Lemma dim_diagonal (t view : Tensor) (offset dim1 dim2 : Z) :
  diagonal t offset dim1 dim2 = Ok view -> 1 <= dim view.
Proof.
  unfold diagonal.
  destruct (maybe_wrap_dim dim1 (dim t)) as [d1 |]; [| done]. simpl.
  destruct (maybe_wrap_dim dim2 (dim t)) as [d2 |]; [| done]. simpl.
  destruct (decide (d1 = d2)); [done |]. destruct (decide (dim t = 0)); [done |].
  intros [= <-]. unfold dim. simpl. rewrite length_app. simpl. lia.
Qed.

(** X5. The batch dimension a rule reports is an axis of the tensor it
    returns: 0 on a result of rank at least 1 for unsqueeze, repeat and
    flip, 0 on a result of rank 2 or 3 for diag, and for [_unsafe_view] the
    position at which the batch size was inserted. *)
Theorem reported_bdim_is_an_axis :
  (forall self bdim d out bd,
      unsqueeze_batch_rule self bdim d = Ok (out, bd) ->
      bd = Some 0 /\ valid_bdim out bd) /\
  (forall self bdim reps h out bd h',
      repeat_batch_rule self bdim reps h = Ok ((out, bd), h') ->
      bd = Some 0 /\ valid_bdim out bd) /\
  (forall self b dims h out bd h',
      0 <= b < dim self ->
      flip_batch_rule self (Some b) dims h = Ok ((out, bd), h') ->
      bd = Some 0 /\ valid_bdim out bd) /\
  (forall input b d h out bd h',
      diag_batch_rule input (Some b) d h = Ok ((out, bd), h') ->
      bd = Some 0 /\ valid_bdim out bd) /\
  (forall self b size_ out bd,
      _unsafe_view_batch_rule self (Some b) size_ = Ok (out, bd) ->
      bd = Some b /\ valid_bdim out bd).
Proof.
  assert (forall t : Tensor, 1 <= dim t -> valid_bdim t (Some 0)) as Hzero.
  { intros t Ht b [= <-]. lia. }
  split; [| split; [| split; [| split]]].
  - intros self bdim d out bd. unfold unsqueeze_batch_rule.
    destruct (moveBatchDimToFront _ _) as [self_ |]; [| done]. simpl.
    destruct (maybe_wrap_dim _ _) as [w |]; [| done]. simpl.
    unfold unsqueeze. destruct (maybe_wrap_dim _ _) as [w' |]; [| done]. simpl.
    intros [= <- <-]. split; [done |]. apply Hzero.
    unfold dim. simpl. rewrite length_insert_at. lia.
  - intros self bdim reps h out bd h'. unfold repeat_batch_rule.
    destruct (moveBatchDimToFront _ _) as [self_ |]; [| done]. simpl.
    destruct (repeat_pad _ _ _) as [padded |]; [| done]. simpl.
    destruct (repeat padded (1 :: reps) h) as [[r h1] |] eqn:Ht; [| done]. simpl.
    intros [= <- <- <-]. split; [done |]. apply Hzero. unfold repeat in Ht.
    case_decide as Hlen; [done |]. case_match; [done |].
    apply tabulate_allocates in Ht as [_ Hsz]. unfold dim. rewrite Hsz.
    rewrite length_zip_with, length_app, length_replicate. simpl in *. lia.
  - intros self b dims h out bd h' Hb. unfold flip_batch_rule.
    destruct (moveBatchDimToFront self (Some b)) as [self_ |] eqn:Hmove; [| done]. simpl.
    destruct (mapM _ _) as [new_dims |]; [| done]. simpl.
    destruct (flip self_ new_dims h) as [[r h1] |] eqn:Ht; [| done]. simpl.
    intros [= <- <- <-]. split; [done |]. apply Hzero. unfold flip in Ht.
    destruct (mapM _ new_dims) as [ds |]; [| done]. simpl in Ht.
    case_match; [done |]. apply tabulate_allocates in Ht as [_ Hsz].
    apply dim_moveBatchDimToFront in Hmove. unfold dim in *. rewrite Hsz. lia.
  - intros input b d h out bd h'. unfold diag_batch_rule.
    destruct (moveBatchDimToFront input (Some b)) as [input_ |] eqn:Hmove; [| done]. simpl.
    unfold rankWithoutBatchDim.
    destruct (decide (dim input - 1 = 1)) as [H1 | H1].
    + unfold diag_embed. destruct (size input_ (-1)) as [n |]; [| done]. simpl.
      destruct (tabulate _ _ _) as [[r h1] |] eqn:Ht; [| done]. simpl.
      intros [= <- <- <-]. split; [done |]. apply Hzero.
      apply tabulate_allocates in Ht as [_ Hsz].
      unfold dim. rewrite Hsz, length_app. simpl. lia.
    + destruct (decide (dim input - 1 = 2)) as [H2 | H2]; [| done].
      destruct (movedim input_ 0 (-1)) as [moved |] eqn:Hmv; [| done]. simpl.
      destruct (diagonal moved d 0 1) as [view |] eqn:Hview; [| done]. simpl.
      unfold clone. destruct (tabulate _ _ _) as [[r h1] |] eqn:Ht; [| done]. simpl.
      intros [= <- <- <-]. rewrite H2. split; [done |]. apply Hzero.
      apply tabulate_allocates in Ht as [_ Hsz].
      unfold dim. rewrite Hsz. apply dim_diagonal in Hview. unfold dim in Hview. lia.
  - intros self b size_ out bd. unfold _unsafe_view_batch_rule. simpl.
    destruct (size self b) as [n |]; [| done]. simpl.
    unfold vec_insert. case_decide as Hb; [| done]. simpl.
    unfold _unsafe_view. repeat (case_match; simpl; try done).
    intros [= <- <-]. split; [done |]. intros b0 [= <-]. unfold dim. simpl.
    rewrite length_app, length_take. simpl. rewrite length_drop. lia.
Qed.

Lemma reported_bdim_is_an_axis_witness :
  valid_bdim (mkTensor 0 0 [3; 2; 1] [1; 3; 1]) (Some 0).
Proof.
  destruct reported_bdim_is_an_axis as (Hunsq & _).
  refine (proj2 (Hunsq (mkTensor 0 0 [2; 3] [3; 1]) (Some 1) (-1) _ _ eq_refl)).
Defined.

(** ** diag on inputs of unbatched rank 1 *)

(** X6. On a batched input of unbatched rank 1 with [n] elements per slot
    the diag rule returns, over a fresh storage and with batch dimension 0,
    the [B] square matrices of side [|offset| + n]: the element at
    [k; i; j] is element [min i j] of slot [k] where [j - i] is the offset,
    and 0 elsewhere. *)
Theorem diag_batch_rule_rank1 (h : heap) (input : Tensor) (b d : Z) :
  wf h input ->
  0 <= b < dim input ->
  rankWithoutBatchDim input (Some b) = 1 ->
  exists input_ out h' B n,
    moveBatchDimToFront input (Some b) = Ok input_ /\
    sizes input_ = [B; n] /\
    B = vec_at (sizes input) b /\
    diag_batch_rule input (Some b) d h = Ok ((out, Some 0), h') /\
    sizes out = [B; Z.abs d + n; Z.abs d + n] /\
    allocates h out h' /\
    forall k i j, 0 <= k < B -> 0 <= i < Z.abs d + n -> 0 <= j < Z.abs d + n ->
      is_Some (read h' out [k; i; j]) /\
      read h' out [k; i; j]
      = if decide (j - i = d) then read h input_ [k; Z.min i j] else Some 0.
Proof.
  intros Hwf Hb Hrank.
  destruct (diag_rank1_core h input b d Hwf Hb Hrank)
    as (input_ & B & n & Hmove & Hwf_ & Hsz & HB & Hrule).
  destruct (wf_spec h input_ Hwf_) as (_ & _ & _ & Hread).
  set (R := new_tensor h [B; Z.abs d + n; Z.abs d + n]
              ((fun idx => default 0 (embed_elem h input_ 1 d idx))
                 <$> all_indices [B; Z.abs d + n; Z.abs d + n])) in *.
  exists input_, R.1, R.2, B, n.
  split; [done |]. split; [done |]. split; [done |]. split; [exact Hrule |].
  split; [reflexivity |].
  split.
  { eexists. repeat split; [by apply bool_decide_eq_true | by rewrite length_fmap]. }
  intros k i j Hk Hi Hj.
  assert (in_range [B; Z.abs d + n; Z.abs d + n] [k; i; j]) as Hin
      by (apply in_range_3; eauto 10).
  pose proof (read_tabulated h [B; Z.abs d + n; Z.abs d + n]
                (fun idx => default 0 (embed_elem h input_ 1 d idx)) [k; i; j] Hin) as Hout.
  fold R in Hout. rewrite Hout. split; [eauto |].
  pose proof (embed_elem_is_Some h input_ n d i j [k]) as [v Hv]; [| done | done |].
  { intros p Hp. apply Hread. rewrite Hsz. apply in_range_2. eauto 10. }
  simpl in Hv. rewrite Hv. simpl. rewrite <- Hv.
  unfold embed_elem, vec_at. simpl. by case_decide.
Qed.

(** Two slots of three elements and offset 1. *)
Lemma diag_batch_rule_rank1_witness :
  exists out h',
    diag_batch_rule (mkTensor 0 0 [2; 3] [3; 1]) (Some 0) 1 [[10; 11; 12; 13; 14; 15]]
    = Ok ((out, Some 0), h') /\
    sizes out = [2; 4; 4] /\
    read h' out [1; 2; 3] = Some 15.
Proof.
  destruct (diag_batch_rule_rank1 [[10; 11; 12; 13; 14; 15]]
              (mkTensor 0 0 [2; 3] [3; 1]) 0 1)
    as (input_ & out & h' & B & n & Hmove & Hsz & HB & Hrule & Hout & _ & Hread);
    [reflexivity | vm_compute; split; congruence | reflexivity |].
  vm_compute in Hmove. injection Hmove as <-. injection Hsz as <- <-.
  exists out, h'. split; [exact Hrule |]. split; [exact Hout |].
  destruct (Hread 1 2 3) as [_ ->]; [lia | lia | lia |]. reflexivity.
Defined.

(** ** The flip rule *)

Lemma mapM_result_ok {A B} (f : A -> result B) (g : A -> B) (l : list A) :
  (forall x, x ∈ l -> f x = Ok (g x)) -> mapM f l = Ok (g <$> l).
Proof.
  induction l as [| x l IH]; intros H; [done |].
  change (mapM f (x :: l)) with (y ← f x; k ← mapM f l; mret (y :: k)).
  rewrite (H x) by left. rewrite IH; [done |].
  intros y Hy. apply H. by right.
Qed.

(** When [f] can fail in one way only, [mapM f] fails that way or gives
    the list of the results. *)
Lemma mapM_result_cases {A B} (f : A -> result B) (e : error) (l : list A) :
  (forall x e', f x = Err e' -> e' = e) ->
  mapM f l = Err e \/ exists k, mapM f l = Ok k /\ Forall2 (fun x y => f x = Ok y) l k.
Proof.
  intros He. induction l as [| x l IH]; [right; exists []; by split |].
  change (mapM f (x :: l)) with (y ← f x; k ← mapM f l; mret (y :: k)).
  destruct (f x) as [y | e'] eqn:Hx.
  - destruct IH as [-> | (k & -> & Hk)]; [by left |].
    right. exists (y :: k). by split; [| constructor].
  - left. by rewrite (He x e' Hx).
Qed.

Lemma maybe_wrap_dim_err (d n : Z) (e : error) :
  maybe_wrap_dim d n = Err e -> e = index_error "Dimension out of range".
Proof. unfold maybe_wrap_dim. repeat case_decide; congruence. Qed.

Lemma maybe_wrap_dim_inv (d n w : Z) :
  maybe_wrap_dim d n = Ok w ->
  - Z.max n 1 <= d < Z.max n 1 /\ w = wrap_dim d (Z.max n 1).
Proof.
  unfold maybe_wrap_dim, wrap_dim. repeat case_decide; intros [= <-]; lia.
Qed.

(** The flipped index lies in the shape, and flipping twice gives the
    index back. *)
Lemma in_range_flip_gen (P : nat -> bool) (pre shape idx : list Z) :
  in_range shape idx ->
  in_range shape
    (imap (fun k i => if P k then vec_at (pre ++ shape) (Z.of_nat (length pre + k)) - 1 - i
                      else i) idx).
Proof.
  unfold in_range. intros H. revert P pre.
  induction H as [| i n idx shape Hi H IH]; intros P pre; [constructor |].
  rewrite imap_cons. constructor.
  - unfold vec_at. rewrite Nat2Z.id, Nat.add_0_r, list_lookup_middle by done. simpl.
    destruct (P 0%nat); lia.
  - specialize (IH (fun k => P (S k)) (pre ++ [n])).
    erewrite imap_ext; [exact IH |].
    intros k x _. simpl. rewrite <- app_assoc, length_app. simpl.
    by replace (length pre + 1 + k)%nat with (length pre + S k)%nat by lia.
Qed.

Lemma in_range_flip (shape ds idx : list Z) :
  in_range shape idx -> in_range shape (flip_index shape ds idx).
Proof.
  intros H.
  apply (in_range_flip_gen (fun k => bool_decide (Z.of_nat k ∈ ds)) [] shape idx H).
Qed.

Lemma flip_index_involutive_gen (f : nat -> Z -> Z) (idx : list Z) :
  (forall k i, f k (f k i) = i) -> imap f (imap f idx) = idx.
Proof.
  revert f. induction idx as [| i idx IH]; intros f Hf; [done |].
  rewrite !imap_cons, Hf, IH; [done |]. intros k j. apply Hf.
Qed.

Lemma flip_index_involutive (shape ds idx : list Z) :
  flip_index shape ds (flip_index shape ds idx) = idx.
Proof.
  apply flip_index_involutive_gen. intros k i. case_bool_decide; lia.
Qed.

(** Flipping axes that all come after the first leaves the leading index
    alone and flips the rest as in a slot. *)
Lemma flip_index_cons (B k : Z) (inner W idx : list Z) :
  Forall (fun w => 0 <= w) W ->
  flip_index (B :: inner) ((fun w => w + 1) <$> W) (k :: idx)
  = k :: flip_index inner W idx.
Proof.
  intros HW. unfold flip_index. rewrite imap_cons.
  rewrite bool_decide_eq_false_2.
  2: { intros (w & Hw & Hin)%list_elem_of_fmap. rewrite Forall_forall in HW.
       specialize (HW w Hin). simpl in Hw. lia. }
  f_equal. apply imap_ext. intros p i _. simpl.
  replace (Z.of_nat (S p)) with (Z.of_nat p + 1) by lia.
  rewrite vec_at_S by lia.
  assert (Z.of_nat p + 1 ∈ (fun w => w + 1) <$> W <-> Z.of_nat p ∈ W) as Hiff.
  { rewrite list_elem_of_fmap. split.
    - intros (w & Hw & Hin). by replace (Z.of_nat p) with w by lia.
    - intros Hin. eauto. }
  by rewrite (bool_decide_ext _ _ Hiff).
Qed.

(** What [flip] gives on a well-formed tensor for axes in range that are
    named once. *)
Lemma flip_ok (h : heap) (t : Tensor) (ds : list Z) :
  wf h t ->
  Forall (fun w => 0 <= w < dim t) ds ->
  NoDup ds ->
  flip t ds h
  = Ok (new_tensor h (sizes t)
          ((fun idx => default 0 (read h t (flip_index (sizes t) ds idx)))
             <$> all_indices (sizes t))).
Proof.
  intros Hwf Hds Hnd. destruct (wf_spec h t Hwf) as (_ & _ & _ & Hread).
  unfold flip.
  rewrite (mapM_result_ok _ id).
  2: { intros w Hw. rewrite Forall_forall in Hds. specialize (Hds w Hw).
       by rewrite maybe_wrap_dim_nonneg by lia. }
  rewrite list_fmap_id. simpl. rewrite bool_decide_eq_true_2 by done. simpl.
  apply (tabulate_default h (sizes t) (fun idx => read h t (flip_index (sizes t) ds idx))).
  intros idx Hidx. by apply Hread, in_range_flip.
Qed.

Lemma wrap_dim_range (d n : Z) : - n <= d < n -> 0 <= wrap_dim d n < n.
Proof. unfold wrap_dim. case_decide; lia. Qed.

#[local] Instance succ_inj : Inj (=) (=) (fun w : Z => w + 1).
Proof. intros x y. lia. Qed.

(** The flip rule on a batched input, step by step. *)
Lemma flip_rule_core (h : heap) (self : Tensor) (b : Z) (dims : list Z) :
  wf h self ->
  0 <= b < dim self ->
  Forall (fun d => - (dim self - 1) <= d < dim self - 1) dims ->
  NoDup ((fun d => wrap_dim d (dim self - 1)) <$> dims) ->
  exists self_ B inner,
    moveBatchDimToFront self (Some b) = Ok self_ /\
    wf h self_ /\
    sizes self_ = B :: inner /\
    B = vec_at (sizes self) b /\
    Forall (fun w => 0 <= w < dim self - 1) ((fun d => wrap_dim d (dim self - 1)) <$> dims) /\
    let R := new_tensor h (B :: inner)
               ((fun idx => default 0 (read h self_
                    (flip_index (B :: inner)
                       ((fun w => w + 1) <$> ((fun d => wrap_dim d (dim self - 1)) <$> dims))
                       idx)))
                  <$> all_indices (B :: inner)) in
    flip_batch_rule self (Some b) dims h = Ok ((R.1, Some 0), R.2).
Proof.
  intros Hwf Hb Hdims Hnd.
  destruct (canonical_shape h self b Hwf Hb)
    as (self_ & Hmove & Hwf_ & _ & Hlsz & _ & HB).
  destruct (sizes self_) as [| B inner] eqn:Hsz;
    [unfold dim in Hb; simpl in Hlsz; lia |].
  rewrite vec_at_0 in HB.
  assert (dim self_ = dim self) as Hdim by (unfold dim; rewrite Hsz; lia).
  set (W := (fun d => wrap_dim d (dim self - 1)) <$> dims) in *.
  assert (Forall (fun w => 0 <= w < dim self - 1) W) as HW.
  { unfold W. rewrite Forall_fmap. eapply Forall_impl; [exact Hdims |].
    intros d Hd. simpl. by apply wrap_dim_range. }
  exists self_, B, inner.
  split; [done |]. split; [done |]. split; [done |]. split; [done |]. split; [done |].
  unfold flip_batch_rule. rewrite Hmove. simpl.
  rewrite (mapM_result_ok _ (fun d => wrap_dim d (dim self - 1) + 1)).
  2: { intros d Hd. rewrite Forall_forall in Hdims. specialize (Hdims d Hd).
       unfold getPhysicalDim, rankWithoutBatchDim.
       rewrite maybe_wrap_dim_ok by lia. reflexivity. }
  simpl.
  assert ((fun d => wrap_dim d (dim self - 1) + 1) <$> dims = (fun w => w + 1) <$> W) as ->
      by (unfold W; by rewrite <- list_fmap_compose).
  rewrite flip_ok, Hsz; [done | done | |].
  - rewrite Forall_fmap. eapply Forall_impl; [exact HW |]. intros w Hw. simpl in *. lia.
  - apply (NoDup_fmap_2 (fun w => w + 1)). exact Hnd.
Qed.

Lemma wf_select (h : heap) (t slot : Tensor) (d k : Z) :
  wf h t -> 0 <= d < dim t -> 0 <= k < vec_at (sizes t) d ->
  select t d k = Ok slot ->
  wf h slot.
Proof.
  intros Hwf Hd Hk. rewrite select_ok by done. intros [= <-].
  destruct (wf_spec h t Hwf) as (Hlen & Hnn & Hsto & Hread). unfold dim in Hd.
  apply wf_intro; simpl.
  - rewrite !length_vec_erase; lia.
  - by apply Forall_vec_erase.
  - done.
  - intros idx Hidx. pose proof (in_range_length _ _ Hidx) as Hl.
    rewrite length_vec_erase in Hl by lia.
    match goal with |- is_Some (read h ?u _) =>
      rewrite (read_flat h u t idx (insert_at idx d k)) end.
    + apply Hread. replace d with (Z.of_nat (Z.to_nat d)) by lia.
      apply in_range_move_front; [lia |]. rewrite Z2Nat.id by lia. by constructor.
    + done.
    + unfold flat_index. simpl. replace d with (Z.of_nat (Z.to_nat d)) by lia.
      rewrite <- dot_move_front by lia. simpl. lia.
Qed.

(** X7. On a batched input, with logical axes in the range of the
    unbatched rank that are named once, the flip rule returns a tensor with
    batch dimension 0 whose every slot holds what the plain flip over those
    axes gives on that slot of the input; the batch axis itself is never
    reversed. *)
Theorem flip_batch_rule_slotwise (h : heap) (self : Tensor) (b : Z) (dims : list Z) :
  wf h self ->
  0 <= b < dim self ->
  Forall (fun d => - (dim self - 1) <= d < dim self - 1) dims ->
  NoDup ((fun d => wrap_dim d (dim self - 1)) <$> dims) ->
  exists out h',
    flip_batch_rule self (Some b) dims h = Ok ((out, Some 0), h') /\
    forall k, 0 <= k < vec_at (sizes self) b ->
      exists slot r h2 oslot v,
        select self b k = Ok slot /\
        flip slot dims h = Ok (r, h2) /\
        select out 0 k = Ok oslot /\
        to_dense h' oslot = Some v /\
        to_dense h2 r = Some v.
Proof.
  intros Hwf Hb Hdims Hnd.
  destruct (flip_rule_core h self b dims Hwf Hb Hdims Hnd)
    as (self_ & B & inner & Hmove & Hwf_ & Hsz & HB & HW & Hrule).
  set (W := (fun d => wrap_dim d (dim self - 1)) <$> dims) in *.
  destruct (wf_spec h self Hwf) as (Hlen & _).
  destruct (wf_spec h self_ Hwf_) as (_ & _ & _ & Hread).
  set (G := fun idx => default 0 (read h self_
              (flip_index (B :: inner) ((fun w => w + 1) <$> W) idx))) in *.
  cbv zeta in Hrule.
  set (R := new_tensor h (B :: inner) (G <$> all_indices (B :: inner))) in *.
  exists R.1, R.2. split; [exact Hrule |].
  intros k Hk.
  destruct (slot_canonical h self self_ b k Hlen Hb Hk Hmove)
    as (slot & Hslot & Hssz & Hsread).
  rewrite Hsz, vec_erase_0 in Hssz.
  assert (wf h slot) as Hwfs by (by apply (wf_select h self slot b k)).
  assert (dim slot = dim self - 1) as Hdims'.
  { apply dim_moveBatchDimToFront in Hmove. unfold dim in *.
    rewrite Hssz. rewrite Hsz in Hmove. simpl in Hmove. lia. }
  assert (flip slot dims h
          = Ok (new_tensor h inner
                  ((fun idx => default 0 (read h slot (flip_index inner W idx)))
                     <$> all_indices inner))) as Hflip.
  { unfold flip.
    rewrite (mapM_result_ok _ (fun d => wrap_dim d (dim self - 1))).
    2: { intros d Hd. rewrite Forall_forall in Hdims. specialize (Hdims d Hd).
         rewrite Hdims'. by rewrite maybe_wrap_dim_ok by lia. }
    fold W. simpl. rewrite bool_decide_eq_true_2 by done. simpl. rewrite Hssz.
    apply (tabulate_default h inner (fun idx => read h slot (flip_index inner W idx))).
    destruct (wf_spec h slot Hwfs) as (_ & _ & _ & Hrs).
    intros idx Hidx. apply Hrs. rewrite Hssz. by apply in_range_flip. }
  destruct (slot_of_tabulated h B inner G k) as (oslot & Hoslot & Hodense); [lia |].
  set (R2 := new_tensor h inner
               ((fun idx => default 0 (read h slot (flip_index inner W idx)))
                  <$> all_indices inner)) in *.
  eexists slot, R2.1, R2.2, oslot, _.
  split; [done |]. split; [exact Hflip |]. split; [exact Hoslot |].
  split; [exact Hodense |].
  unfold R2. rewrite to_dense_new_tensor. do 2 f_equal. apply fmap_ext_in.
  intros idx _. unfold G. rewrite flip_index_cons.
  - by rewrite Hsread.
  - eapply Forall_impl; [exact HW |]. intros w Hw. simpl in Hw. lia.
Qed.

(** A batch of four columns of three elements, flipped over their only
    axis. *)
Lemma flip_batch_rule_slotwise_witness :
  exists out h' slot r h2 oslot v,
    flip_batch_rule (mkTensor 0 0 [3; 4] [4; 1]) (Some 1) [-1]
      [[0; 1; 2; 3; 4; 5; 6; 7; 8; 9; 10; 11]] = Ok ((out, Some 0), h') /\
    select (mkTensor 0 0 [3; 4] [4; 1]) 1 3 = Ok slot /\
    flip slot [-1] [[0; 1; 2; 3; 4; 5; 6; 7; 8; 9; 10; 11]] = Ok (r, h2) /\
    select out 0 3 = Ok oslot /\
    to_dense h' oslot = Some v /\
    to_dense h2 r = Some v.
Proof.
  destruct (flip_batch_rule_slotwise [[0; 1; 2; 3; 4; 5; 6; 7; 8; 9; 10; 11]]
              (mkTensor 0 0 [3; 4] [4; 1]) 1 [-1])
    as (out & h' & Hrule & Hslots).
  - reflexivity.
  - vm_compute. split; congruence.
  - repeat constructor; vm_compute; congruence.
  - apply NoDup_singleton.
  - destruct (Hslots 3) as (slot & r & h2 & oslot & v & H1 & H2 & H3 & H4 & H5);
      [vm_compute; split; congruence |].
    by exists out, h', slot, r, h2, oslot, v.
Defined.

(** X8. Applying the flip rule to its own output, at the batch dimension it
    reported and over the same axes, gives back the contents of the
    canonical input. *)
Theorem flip_batch_rule_twice (h : heap) (self : Tensor) (b : Z) (dims : list Z) :
  wf h self ->
  0 <= b < dim self ->
  Forall (fun d => - (dim self - 1) <= d < dim self - 1) dims ->
  NoDup ((fun d => wrap_dim d (dim self - 1)) <$> dims) ->
  exists self_ out h' out2 h'' v,
    moveBatchDimToFront self (Some b) = Ok self_ /\
    flip_batch_rule self (Some b) dims h = Ok ((out, Some 0), h') /\
    flip_batch_rule out (Some 0) dims h' = Ok ((out2, Some 0), h'') /\
    to_dense h self_ = Some v /\
    to_dense h'' out2 = Some v.
Proof.
  intros Hwf Hb Hdims Hnd.
  destruct (flip_rule_core h self b dims Hwf Hb Hdims Hnd)
    as (self_ & B & inner & Hmove & Hwf_ & Hsz & HB & HW & Hrule).
  set (W := (fun d => wrap_dim d (dim self - 1)) <$> dims) in *.
  destruct (wf_spec h self_ Hwf_) as (_ & Hnn & _ & Hread).
  set (nd := (fun w => w + 1) <$> W) in *.
  set (G := fun idx => default 0 (read h self_ (flip_index (B :: inner) nd idx))) in *.
  cbv zeta in Hrule.
  set (R := new_tensor h (B :: inner) (G <$> all_indices (B :: inner))) in *.
  assert (dim R.1 = dim self) as HdimR.
  { apply dim_moveBatchDimToFront in Hmove. rewrite <- Hmove. unfold dim.
    by rewrite Hsz. }
  assert (wf R.2 R.1) as HwfR.
  { apply (allocates_wf h); [| unfold R; simpl; by rewrite <- Hsz].
    eexists. repeat split; [by apply bool_decide_eq_true | by rewrite length_fmap]. }
  assert (0 <= 0 < dim R.1) as Hb0 by lia.
  assert (Forall (fun d => - (dim R.1 - 1) <= d < dim R.1 - 1) dims) as Hdims2
      by (by rewrite HdimR).
  assert (NoDup ((fun d => wrap_dim d (dim R.1 - 1)) <$> dims)) as Hnd2
      by (by rewrite HdimR).
  destruct (flip_rule_core R.2 R.1 0 dims HwfR Hb0 Hdims2 Hnd2)
    as (out_ & B' & inner' & Hmove2 & _ & Hsz2 & _ & _ & Hrule2).
  rewrite HdimR in Hrule2. fold W nd in Hrule2.
  injection Hmove2 as <-. simpl in Hsz2. injection Hsz2 as <- <-.
  cbv zeta in Hrule2.
  eexists self_, R.1, R.2, _, _, _.
  split; [done |]. split; [exact Hrule |]. split; [exact Hrule2 |].
  split.
  - rewrite (to_dense_reads h self_ (fun idx => default 0 (read h self_ idx))); [done |].
    intros idx Hidx. by destruct (Hread idx Hidx) as [x ->].
  - rewrite to_dense_new_tensor, Hsz. do 2 f_equal. apply fmap_ext_in.
    intros idx Hidx%elem_of_all_indices.
    unfold R. rewrite read_tabulated by (by apply in_range_flip). simpl.
    unfold G. by rewrite flip_index_involutive.
Qed.

Lemma flip_batch_rule_twice_witness :
  exists out h' out2 h'',
    flip_batch_rule (mkTensor 0 0 [3; 4] [4; 1]) (Some 0) [0]
      [[0; 1; 2; 3; 4; 5; 6; 7; 8; 9; 10; 11]] = Ok ((out, Some 0), h') /\
    flip_batch_rule out (Some 0) [0] h' = Ok ((out2, Some 0), h'') /\
    to_dense h'' out2 = Some (mkDense [3; 4] [0; 1; 2; 3; 4; 5; 6; 7; 8; 9; 10; 11]).
Proof.
  destruct (flip_batch_rule_twice [[0; 1; 2; 3; 4; 5; 6; 7; 8; 9; 10; 11]]
              (mkTensor 0 0 [3; 4] [4; 1]) 0 [0])
    as (self_ & out & h' & out2 & h'' & v & Hmove & H1 & H2 & Hv & H3).
  - reflexivity.
  - vm_compute. split; congruence.
  - repeat constructor; vm_compute; congruence.
  - apply NoDup_singleton.
  - exists out, h', out2, h''. split; [exact H1 |]. split; [exact H2 |].
    rewrite H3, <- Hv. vm_compute in Hmove. injection Hmove as <-. reflexivity.
Defined.

(** X9. A logical axis outside the range of the unbatched rank makes the
    flip rule fail with an index error, also when it names an axis of the
    batched tensor; and two logical axes that name one axis of a slot make
    it fail with the error for repeated axes. *)
Theorem flip_batch_rule_bad_dims (h : heap) (self : Tensor) (b : Z) (dims : list Z) :
  wf h self ->
  0 <= b < dim self ->
  (Exists (fun d => d < - (dim self - 1) \/ dim self - 1 <= d) dims ->
   flip_batch_rule self (Some b) dims h = Err (index_error "Dimension out of range")) /\
  (Forall (fun d => - (dim self - 1) <= d < dim self - 1) dims ->
   ~ NoDup ((fun d => wrap_dim d (dim self - 1)) <$> dims) ->
   flip_batch_rule self (Some b) dims h
   = Err (torch_check "dim appears multiple times in the list of dims")).
Proof.
  intros Hwf Hb.
  destruct (canonical_shape h self b Hwf Hb)
    as (self_ & Hmove & Hwf_ & _ & Hlsz & _ & _).
  assert (dim self_ = dim self) as Hdim by (unfold dim; lia).
  split.
  - intros (d & Hd & Hbad)%Exists_exists.
    unfold flip_batch_rule. rewrite Hmove. simpl.
    destruct (mapM_result_cases (fun i => getPhysicalDim self true i)
                (index_error "Dimension out of range") dims) as [-> | (nd & -> & Hnd)];
      [| done |].
    { intros x e. unfold getPhysicalDim.
      destruct (maybe_wrap_dim x _) eqn:Hx; simpl; [done |].
      intros [= <-]. by apply maybe_wrap_dim_err in Hx. }
    simpl. unfold flip.
    destruct (mapM_result_cases (fun d => maybe_wrap_dim d (dim self_))
                (index_error "Dimension out of range") nd) as [-> | (ds & _ & Hds)];
      [intros x e; apply maybe_wrap_dim_err | done |].
    exfalso.
    apply list_elem_of_lookup in Hd as [i Hi].
    destruct (Forall2_lookup_l _ _ _ _ _ Hnd Hi) as (p & Hp & Hphys).
    destruct (Forall2_lookup_l _ _ _ _ _ Hds Hp) as (q & _ & Hq).
    unfold getPhysicalDim, rankWithoutBatchDim in Hphys.
    destruct (maybe_wrap_dim d (dim self - 1)) as [w |] eqn:Hw; [| done].
    simpl in Hphys. injection Hphys as <-.
    apply maybe_wrap_dim_inv in Hw as [Hr ->].
    apply maybe_wrap_dim_inv in Hq as [Hr2 _].
    unfold wrap_dim in Hr2. rewrite Hdim in Hr2. case_decide; lia.
  - intros Hdims Hnd.
    unfold flip_batch_rule. rewrite Hmove. simpl.
    rewrite (mapM_result_ok _ (fun d => wrap_dim d (dim self - 1) + 1)).
    2: { intros d Hd. rewrite Forall_forall in Hdims. specialize (Hdims d Hd).
         unfold getPhysicalDim, rankWithoutBatchDim.
         rewrite maybe_wrap_dim_ok by lia. reflexivity. }
    simpl. unfold flip. rewrite (mapM_result_ok _ id).
    2: { intros w (d & -> & Hd)%list_elem_of_fmap.
         rewrite Forall_forall in Hdims. specialize (Hdims d Hd).
         pose proof (wrap_dim_range d (dim self - 1) Hdims).
         by rewrite maybe_wrap_dim_nonneg by lia. }
    rewrite list_fmap_id. simpl.
    rewrite bool_decide_eq_false_2; [done |].
    intros Hnd'. apply Hnd.
    apply (NoDup_fmap_1 (fun w => w + 1)). by rewrite <- list_fmap_compose.
Qed.

(** Slots of rank 1: axis 1 exists in the batched tensor only, and axes 0
    and -1 are the same axis of a slot. *)
Lemma flip_batch_rule_bad_dims_witness :
  flip_batch_rule (mkTensor 0 0 [3; 4] [4; 1]) (Some 0) [1]
    [[0; 1; 2; 3; 4; 5; 6; 7; 8; 9; 10; 11]]
  = Err (index_error "Dimension out of range") /\
  flip_batch_rule (mkTensor 0 0 [3; 4] [4; 1]) (Some 0) [0; -1]
    [[0; 1; 2; 3; 4; 5; 6; 7; 8; 9; 10; 11]]
  = Err (torch_check "dim appears multiple times in the list of dims").
Proof.
  destruct (flip_batch_rule_bad_dims [[0; 1; 2; 3; 4; 5; 6; 7; 8; 9; 10; 11]]
              (mkTensor 0 0 [3; 4] [4; 1]) 0) with (dims := [1]) as [H1 _];
    [reflexivity | vm_compute; split; congruence |].
  destruct (flip_batch_rule_bad_dims [[0; 1; 2; 3; 4; 5; 6; 7; 8; 9; 10; 11]]
              (mkTensor 0 0 [3; 4] [4; 1]) 0) with (dims := [0; -1]) as [_ H2];
    [reflexivity | vm_compute; split; congruence |].
  split.
  - apply H1. constructor. right. vm_compute. congruence.
  - apply H2.
    + repeat constructor; vm_compute; congruence.
    + vm_compute. intros Hnd. inversion Hnd as [| ? ? Hin _]. apply Hin. left.
Defined.

(** ** The repeat rule in general *)

Lemma repeat_pad_S (fuel : nat) (t : Tensor) (n : Z) :
  repeat_pad (S fuel) t n
  = if decide (dim t < n) then self' ← unsqueeze t 1; repeat_pad fuel self' n else Ok t.
Proof. reflexivity. Qed.

(** The padding loop gives the canonical input as many singleton axes
    after the batch axis as the factors outnumber its other axes. *)
Lemma repeat_pad_geometry (p : nat) :
  forall (fuel : nat) (t : Tensor) (B sB : Z) (X Y : list Z),
    sizes t = B :: X -> strides t = sB :: Y -> length Y = length X ->
    (p <= fuel)%nat ->
    exists Zs,
      length Zs = p /\
      repeat_pad fuel t (Z.of_nat (length X + 1 + p))
      = Ok (mkTensor (storage t) (storage_offset t)
              (B :: replicate p 1 ++ X) (sB :: Zs ++ Y)).
Proof.
  induction p as [| p IH]; intros fuel t B sB X Y Hsz Hst Hlen Hfuel.
  - exists []. split; [done |]. rewrite repeat_pad_done by (unfold dim; rewrite Hsz; simpl; lia).
    destruct t; simpl in *; by subst.
  - destruct fuel as [| fuel]; [lia |]. rewrite repeat_pad_S.
    rewrite decide_True by (unfold dim; rewrite Hsz; simpl; lia).
    rewrite unsqueeze_ok by (unfold dim; rewrite Hsz; simpl; lia). simpl.
    rewrite Hsz, Hst.
    change (insert_at (B :: X) 1 1) with (B :: 1 :: X).
    match goal with |- context [insert_at (sB :: Y) 1 ?s] =>
      change (insert_at (sB :: Y) 1 s) with (sB :: s :: Y); set (s' := s) end.
    destruct (IH fuel (mkTensor (storage t) (storage_offset t) (B :: 1 :: X) (sB :: s' :: Y))
                B sB (1 :: X) (s' :: Y)) as (Zs & HZs & Hpad);
      [done | done | simpl; lia | lia |].
    exists (Zs ++ [s']). split; [rewrite length_app; simpl; lia |].
    replace (Z.of_nat (length X + 1 + S p)) with (Z.of_nat (length (1 :: X) + 1 + p))
      by (simpl; lia).
    rewrite Hpad. f_equal. f_equal.
    + f_equal. by rewrite app_comm_cons, replicate_cons_app, <- app_assoc.
    + f_equal. by rewrite <- app_assoc.
Qed.

Lemma dot_zeros (p : nat) (Zs idx Y : list Z) :
  length Zs = p -> dot (replicate p 0 ++ idx) (Zs ++ Y) = dot idx Y.
Proof.
  revert Zs. induction p as [| p IH]; intros [| z Zs] Hl; simpl in *; try lia.
  rewrite IH by lia. lia.
Qed.

(** [repeat] once its two checks have passed. *)
Lemma repeat_checked (h : heap) (t : Tensor) (reps : list Z) :
  (length (sizes t) <= length reps)%nat ->
  Forall (fun r => 0 <= r) reps ->
  repeat t reps h
  = tabulate h
      (zip_with Z.mul (replicate (length reps - length (sizes t)) 1 ++ sizes t) reps)
      (fun idx => read h t
         (drop (length reps - length (sizes t))
            (zip_with Z.modulo idx
               (replicate (length reps - length (sizes t)) 1 ++ sizes t)))).
Proof.
  intros Hlen Hnn. unfold repeat. rewrite decide_False by lia.
  assert (forallb (fun n => bool_decide (0 <= n)) reps = true) as ->; [| done].
  apply forallb_forall. intros r Hr. apply bool_decide_eq_true.
  rewrite Forall_forall in Hnn. by apply Hnn, list_elem_of_In.
Qed.

(** An index of the tiled shape, reduced modulo the sizes, is an index of
    the tensor. *)
Lemma in_range_mod (inner reps idx : list Z) :
  Forall (fun n => 0 <= n) inner ->
  length reps = length inner ->
  in_range (zip_with Z.mul inner reps) idx ->
  in_range inner (zip_with Z.modulo idx inner).
Proof.
  unfold in_range. revert reps idx.
  induction inner as [| n inner IH]; intros [| r reps] [| i idx] Hnn Hl H;
    simpl in *; try done; try (by inversion H).
  inversion Hnn; subst. inversion H as [| ? ? ? ? Hi H']; subst.
  constructor; [| apply (IH reps); [done | lia | done]].
  apply Z.mod_pos_bound. destruct (decide (n = 0)) as [-> | ?]; lia.
Qed.

Lemma mod_split (p : nat) :
  forall (inner reps idx : list Z),
    Forall (fun n => 0 <= n) inner ->
    length reps = (p + length inner)%nat ->
    in_range (zip_with Z.mul (replicate p 1 ++ inner) reps) idx ->
    exists J,
      zip_with Z.modulo idx (replicate p 1 ++ inner) = replicate p 0 ++ J /\
      in_range inner J.
Proof.
  induction p as [| p IH]; intros inner reps idx Hnn Hl H.
  - exists (zip_with Z.modulo idx inner). split; [done |]. by apply (in_range_mod _ reps).
  - destruct reps as [| r reps]; [simpl in Hl; lia |].
    simpl in H. inversion H as [| i ? idx' ? Hi H']; subst.
    destruct (IH inner reps idx' Hnn) as (J & HJ & Hin); [simpl in Hl; lia | done |].
    exists J. split; [| done]. simpl. by rewrite HJ, Z.mod_1_r.
Qed.

Arguments repeat : simpl never.

(** The repeat rule on a batched input with enough factors, step by step. *)
Lemma repeat_rule_core (h : heap) (self : Tensor) (b : Z) (reps : list Z) :
  wf h self ->
  0 <= b < dim self ->
  dim self - 1 <= Z.of_nat (length reps) ->
  Forall (fun r => 0 <= r) reps ->
  exists self_ B inner (p : nat),
    moveBatchDimToFront self (Some b) = Ok self_ /\
    wf h self_ /\
    sizes self_ = B :: inner /\
    B = vec_at (sizes self) b /\
    0 <= B /\
    Forall (fun n => 0 <= n) inner /\
    length reps = (p + length inner)%nat /\
    let P := replicate p 1 ++ inner in
    exists F,
      (forall k idx, 0 <= k < B -> in_range (zip_with Z.mul P reps) idx ->
         exists J, zip_with Z.modulo idx P = replicate p 0 ++ J /\
                   in_range inner J /\
                   F (k :: idx) = read h self_ (k :: J)) /\
      repeat_batch_rule self (Some b) reps h
      = (let R := new_tensor h (B :: zip_with Z.mul P reps)
                    ((fun idx => default 0 (F idx))
                       <$> all_indices (B :: zip_with Z.mul P reps)) in
         Ok ((R.1, Some 0), R.2)).
Proof.
  intros Hwf Hb Hlen Hnn.
  destruct (canonical_shape h self b Hwf Hb)
    as (self_ & Hmove & Hwf_ & _ & Hlsz & Hlst & HB).
  destruct (wf_spec h self_ Hwf_) as (Hlen_ & Hnn_ & _ & Hread).
  destruct (sizes self_) as [| B inner] eqn:Hsz;
    [unfold dim in Hb; simpl in Hlsz; lia |].
  destruct (strides self_) as [| sB st] eqn:Hst; [simpl in Hlen_; lia |].
  rewrite vec_at_0 in HB. apply Forall_cons in Hnn_ as [HB0 Hinner].
  unfold dim in Hlen. simpl in Hlsz, Hlen_.
  set (p := (length reps - length inner)%nat).
  assert (length reps = (p + length inner)%nat) as Hp by lia.
  clearbody p.
  destruct (repeat_pad_geometry p (S (length reps)) self_ B sB inner st Hsz Hst)
    as (Zs & HZs & Hpad); [lia | lia |].
  set (P := replicate p 1 ++ inner).
  set (padded := mkTensor (storage self_) (storage_offset self_) (B :: P) (sB :: Zs ++ st)) in *.
  set (F := fun idx => read h padded (drop 0 (zip_with Z.modulo idx (B :: P)))).
  exists self_, B, inner, p.
  split; [done |]. split; [done |]. split; [done |]. split; [done |].
  split; [done |]. split; [done |]. split; [done |].
  exists F. split.
  - intros k idx Hk Hidx.
    destruct (mod_split p inner reps idx Hinner Hp Hidx) as (J & HJ & Hin).
    exists J. split; [done |]. split; [done |].
    fold P in HJ. unfold F. simpl. rewrite HJ, Z.mod_small by lia.
    apply read_flat; [done |]. unfold flat_index. simpl. rewrite Hst. simpl.
    by rewrite dot_zeros.
  - unfold repeat_batch_rule. rewrite Hmove. simpl.
    replace (Z.of_nat (S (length reps))) with (Z.of_nat (length inner + 1 + p)) by lia.
    rewrite Hpad. simpl. fold P. fold padded.
    assert (length P = length reps) as HlP
        by (unfold P; rewrite length_app, length_replicate; lia).
    assert (length (sizes padded) <= length (1%Z :: reps))%nat as Hc1 by (simpl; lia).
    assert (Forall (fun r => 0 <= r) (1 :: reps)) as Hc2 by (constructor; [lia | done]).
    rewrite (repeat_checked h padded (1 :: reps) Hc1 Hc2). simpl.
    rewrite HlP. replace (length reps - length reps)%nat with 0%nat by lia.
    simpl. rewrite Z.mul_1_r. fold F.
    rewrite (tabulate_default h (B :: zip_with Z.mul P reps) F); [done |].
    intros idx Hidx. apply Forall2_cons_inv_r in Hidx as (k & idx' & Hk & Hidx' & ->).
    destruct (mod_split p inner reps idx' Hinner Hp Hidx') as (J & HJ & Hin).
    fold P in HJ. unfold F. simpl. rewrite HJ, Z.mod_small by lia.
    match goal with |- is_Some (read h padded ?i) =>
      rewrite (read_flat h padded self_ i (k :: J)) end.
    + apply Hread. by constructor.
    + done.
    + unfold flat_index. simpl. rewrite Hst. simpl. by rewrite dot_zeros.
Qed.

(** X10. For any unbatched rank and any list of non-negative factors at
    least as long as it, the repeat rule returns a tensor with batch
    dimension 0 and the batch size unchanged whose every slot holds what
    the plain repeat with those factors gives on that slot of the input:
    the padding loop adds the singleton axes the plain operator would
    add. *)
Theorem repeat_batch_rule_slotwise (h : heap) (self : Tensor) (b : Z) (reps : list Z) :
  wf h self ->
  0 <= b < dim self ->
  dim self - 1 <= Z.of_nat (length reps) ->
  Forall (fun r => 0 <= r) reps ->
  exists out h',
    repeat_batch_rule self (Some b) reps h = Ok ((out, Some 0), h') /\
    vec_at (sizes out) 0 = vec_at (sizes self) b /\
    dim out = Z.of_nat (length reps) + 1 /\
    forall k, 0 <= k < vec_at (sizes self) b ->
      exists slot r h2 oslot v,
        select self b k = Ok slot /\
        repeat slot reps h = Ok (r, h2) /\
        select out 0 k = Ok oslot /\
        to_dense h' oslot = Some v /\
        to_dense h2 r = Some v.
Proof.
  intros Hwf Hb Hlen Hnn.
  destruct (repeat_rule_core h self b reps Hwf Hb Hlen Hnn)
    as (self_ & B & inner & p & Hmove & Hwf_ & Hsz & HB & HB0 & Hinner & Hp & F & HF & Hrule).
  set (P := replicate p 1 ++ inner) in *. cbv zeta in Hrule.
  set (T := zip_with Z.mul P reps) in *.
  set (R := new_tensor h (B :: T) ((fun idx => default 0 (F idx)) <$> all_indices (B :: T))) in *.
  destruct (wf_spec h self Hwf) as (Hlens & _).
  exists R.1, R.2. split; [exact Hrule |].
  split; [by rewrite <- HB |].
  split.
  { unfold dim. simpl. unfold T, P.
    rewrite length_zip_with, length_app, length_replicate. lia. }
  intros k Hk.
  destruct (slot_canonical h self self_ b k Hlens Hb Hk Hmove)
    as (slot & Hslot & Hssz & Hsread).
  rewrite Hsz, vec_erase_0 in Hssz.
  assert (length reps - length (sizes slot) = p)%nat as Hq by (rewrite Hssz; lia).
  set (F2 := fun idx => read h slot (drop p (zip_with Z.modulo idx P))).
  assert (forall idx, in_range T idx -> F2 idx = F (k :: idx) /\ is_Some (F2 idx)) as HF2.
  { intros idx Hidx. destruct (HF k idx) as (J & HJ & Hin & ->); [lia | done |].
    unfold F2. rewrite HJ.
    rewrite drop_app_length' by (by rewrite length_replicate).
    rewrite Hsread. split; [done |].
    destruct (wf_spec h self_ Hwf_) as (_ & _ & _ & Hread).
    apply Hread. rewrite Hsz. constructor; [lia | done]. }
  assert (repeat slot reps h
          = Ok (new_tensor h T ((fun idx => default 0 (F2 idx)) <$> all_indices T))) as Hrep.
  { rewrite repeat_checked by (rewrite ?Hssz; first [lia | done]).
    rewrite Hq, Hssz. fold P. fold T. fold F2.
    apply tabulate_default. intros idx Hidx. by apply HF2. }
  destruct (slot_of_tabulated h B T (fun idx => default 0 (F idx)) k)
    as (oslot & Hoslot & Hodense); [lia |].
  set (R2 := new_tensor h T ((fun idx => default 0 (F2 idx)) <$> all_indices T)) in *.
  eexists slot, R2.1, R2.2, oslot, _.
  split; [done |]. split; [exact Hrep |]. split; [exact Hoslot |].
  split; [exact Hodense |].
  unfold R2. rewrite to_dense_new_tensor. do 2 f_equal. apply fmap_ext_in.
  intros idx Hidx%elem_of_all_indices. by destruct (HF2 idx Hidx) as [-> _].
Qed.

(** Slots of two elements and three factors: the slots get a leading
    singleton axis and are tiled to the shape [2; 3; 4]. *)
Lemma repeat_batch_rule_slotwise_witness :
  exists out h' slot r h2 oslot v,
    repeat_batch_rule (mkTensor 0 0 [2; 3] [3; 1]) (Some 1) [2; 3; 2]
      [[10; 11; 12; 13; 14; 15]] = Ok ((out, Some 0), h') /\
    dim out = 4 /\
    select (mkTensor 0 0 [2; 3] [3; 1]) 1 2 = Ok slot /\
    repeat slot [2; 3; 2] [[10; 11; 12; 13; 14; 15]] = Ok (r, h2) /\
    select out 0 2 = Ok oslot /\
    to_dense h' oslot = Some v /\
    to_dense h2 r = Some v.
Proof.
  destruct (repeat_batch_rule_slotwise [[10; 11; 12; 13; 14; 15]]
              (mkTensor 0 0 [2; 3] [3; 1]) 1 [2; 3; 2])
    as (out & h' & Hrule & _ & Hdim & Hslots).
  - reflexivity.
  - vm_compute. split; congruence.
  - vm_compute. congruence.
  - repeat constructor; lia.
  - destruct (Hslots 2) as (slot & r & h2 & oslot & v & H1 & H2 & H3 & H4 & H5);
      [vm_compute; split; congruence |].
    by exists out, h', slot, r, h2, oslot, v.
Defined.


(** ** The resize plumbing for any slot shape *)

Module ResizeMore.
Import Resize.

Lemma forallb_nonneg (l : list Z) :
  Forall (fun n => 0 <= n) l -> forallb (fun n => bool_decide (0 <= n)) l = true.
Proof.
  intros H. apply forallb_forall. intros r Hr. apply bool_decide_eq_true.
  rewrite Forall_forall in H. by apply H, list_elem_of_In.
Qed.

(** X12. With batch dimension 0 at the current level the resize plumbing
    succeeds for every non-negative slot shape and returns the wrapper it
    was given.  The wrapped tensor keeps its storage and offset and gets
    the batch size followed by the requested sizes, with contiguous
    strides unless it already had those sizes, in which case it is not
    touched; the wrapper shows the requested sizes and the strides of the
    value without the batch axis.  No other tensor or wrapper changes,
    every storage keeps the elements it had as a prefix and only the
    storage of the value can grow, after a resize it covers the new shape,
    and the dispatch-key exclusion is back to what it was. *)
Theorem resize_plumbing_any_shape (w : World) (i : nat) (bt : BatchedTensorImpl)
    (t : Tensor) (B cur_level : Z) (inner size_ : list Z) (fmt : option MemoryFormat) :
  memory_format_supported fmt = true ->
  maybeCurrentDynamicLayer w = Some cur_level ->
  wrappers w !! i = Some bt ->
  level_ bt = cur_level ->
  bdim_ bt = 0 ->
  tensors w !! value_ bt = Some t ->
  sizes t = B :: inner ->
  0 <= B ->
  Forall (fun n => 0 <= n) size_ ->
  (storage t < length (storages w))%nat ->
  exists w' t',
    resize__plumbing (BatchedRef i) size_ fmt w = Ok (BatchedRef i, w') /\
    tensors w' !! value_ bt = Some t' /\
    sizes t' = B :: size_ /\
    storage t' = storage t /\
    storage_offset t' = storage_offset t /\
    (inner = size_ -> t' = t) /\
    (inner <> size_ -> strides t' = contiguous_strides (B :: size_)) /\
    wrappers w' !! i
    = Some (mkBatched (value_ bt) 0 cur_level size_ (vec_erase (strides t') 0)) /\
    (forall j, j <> value_ bt -> tensors w' !! j = tensors w !! j) /\
    (forall j, j <> i -> wrappers w' !! j = wrappers w !! j) /\
    (forall s data, storages w !! s = Some data ->
       exists data', storages w' !! s = Some data' /\
         take (length data) data' = data /\
         (s <> storage t -> data' = data) /\
         (s = storage t -> inner <> size_ -> 0 < numel (B :: size_) ->
          storage_offset t + numel (B :: size_) <= Z.of_nat (length data'))) /\
    length (storages w') = length (storages w) /\
    dynamic_layers w' = dynamic_layers w /\
    batched_key_excluded w' = batched_key_excluded w.
Proof.
  intros Hfmt Hlayer Hwrap Hlevel Hbdim Hten Hsz HB Hnn Hsto.
  apply lookup_lt_Some in Hten as Hlt_t. apply lookup_lt_Some in Hwrap as Hlt_w.
  assert (forall w1 : World,
            wrappers w1 = wrappers w -> dynamic_layers w1 = dynamic_layers w ->
            forall t', tensors w1 !! value_ bt = Some t' -> sizes t' = B :: size_ ->
            resize_ (PlainRef (value_ bt)) (B :: size_) (set_excluded w true) = Ok w1 ->
            resize__plumbing (BatchedRef i) size_ fmt w
            = Ok (BatchedRef i,
                  set_excluded
                    (set_wrappers w1
                       (<[i := mkBatched (value_ bt) 0 cur_level size_
                                 (vec_erase (strides t') 0)]> (wrappers w)))
                    (batched_key_excluded w))) as Hrun.
  { intros w1 Hw1 Hl1 t' Ht' Hsz' Hres.
    unfold resize__plumbing. rewrite Hfmt, Hlayer. simpl. rewrite Hwrap.
    rewrite decide_True by done. simpl. rewrite Hbdim. simpl.
    unfold with_excluded_key. simpl. rewrite Hten. simpl.
    unfold size, wrap_strict, dim. rewrite Hsz.
    rewrite decide_False by (simpl; lia).
    rewrite maybe_wrap_dim_nonneg by (simpl; lia). simpl. rewrite vec_at_0.
    unfold vec_insert. rewrite decide_True by lia. simpl.
    change (drop (Z.to_nat 0) size_) with size_.
    rewrite Hres. simpl.
    unfold refreshSizesAndStrides. rewrite Hw1, Hwrap, Ht'. simpl.
    rewrite Hbdim, Hlevel, Hsz', vec_erase_0. reflexivity. }
  destruct (decide (inner = size_)) as [Heq | Hne].
  - (* the sizes are the ones it has: nothing is resized *)
    subst size_.
    eexists _, t. split.
    { apply (Hrun (set_excluded w true)); try done.
      unfold resize_. simpl. rewrite Hten.
      by rewrite bool_decide_eq_true_2. }
    simpl. split; [done |]. split; [done |]. split; [done |]. split; [done |].
    split; [done |]. split; [done |].
    split; [by rewrite list_lookup_insert_eq |].
    split; [done |].
    split; [intros j Hj; by rewrite list_lookup_insert_ne |].
    split; [| done].
    intros s data Hdata. exists data. split; [done |].
    split; [apply firstn_all |]. split; [done |]. done.
  - set (t' := mkTensor (storage t) (storage_offset t) (B :: size_)
                 (contiguous_strides (B :: size_))).
    destruct (lookup_lt_is_Some_2 (storages w) (storage t) Hsto) as [data0 Hdata0].
    set (n := numel (B :: size_)).
    set (data' := if decide (n > 0)
                  then grow (uninit w) data0 (n + storage_offset t) else data0).
    set (w1 := mkWorld (<[storage t := data']> (storages w))
                 (<[value_ bt := t']> (tensors w)) (wrappers w)
                 (dynamic_layers w) true (uninit w)).
    assert (resize_ (PlainRef (value_ bt)) (B :: size_) (set_excluded w true) = Ok w1) as Hres.
    { unfold resize_. simpl. rewrite Hten, Hsz.
      rewrite bool_decide_eq_false_2 by congruence.
      change (forallb _ (B :: size_))
        with (bool_decide (0 <= B) && forallb (fun n => bool_decide (0 <= n)) size_).
      rewrite bool_decide_eq_true_2, forallb_nonneg by done. simpl.
      change (B * numel size_) with n. unfold w1, data'. fold t'.
      destruct (decide (n > 0)).
      - by rewrite Hdata0.
      - unfold set_tensors. simpl. by rewrite (list_insert_id (storages w)). }
    eexists _, t'. split.
    { apply (Hrun w1 eq_refl eq_refl t');
        [simpl; by rewrite list_lookup_insert_eq | done | done]. }
    simpl. split; [by rewrite list_lookup_insert_eq |].
    split; [done |]. split; [done |]. split; [done |].
    split; [done |]. split; [done |].
    split; [by rewrite list_lookup_insert_eq |].
    split; [intros j Hj; by rewrite list_lookup_insert_ne |].
    split; [intros j Hj; by rewrite list_lookup_insert_ne |].
    split; [| by rewrite length_insert].
    intros s data Hdata.
    destruct (decide (s = storage t)) as [-> | Hs].
    + rewrite Hdata0 in Hdata. injection Hdata as <-.
      exists data'. split; [by rewrite list_lookup_insert_eq |].
      split.
      { unfold data'. case_decide; [apply ResizeFacts.take_grow | apply firstn_all]. }
      split; [done |].
      intros _ _ Hpos. unfold data'. rewrite decide_True by (unfold n; lia).
      rewrite ResizeFacts.length_grow. unfold n. lia.
    + exists data. split; [by rewrite list_lookup_insert_ne |].
      split; [apply firstn_all |]. done.
Qed.

(** Two slots of shape [2; 2] resized to slots of shape [3]. *)
Lemma resize_plumbing_any_shape_witness :
  exists w' t',
    resize__plumbing (BatchedRef 0) [3] (Some Contiguous)
      (mkWorld [[0; 1; 2; 3; 4; 5; 6; 7]] [mkTensor 0 0 [2; 2; 2] [4; 2; 1]]
         [mkBatched 0 0 1 [2; 2] [2; 1]] [1] false (fun _ => 99))
    = Ok (BatchedRef 0, w') /\
    tensors w' !! 0%nat = Some t' /\
    sizes t' = [2; 3].
Proof.
  destruct (resize_plumbing_any_shape
              (mkWorld [[0; 1; 2; 3; 4; 5; 6; 7]] [mkTensor 0 0 [2; 2; 2] [4; 2; 1]]
                 [mkBatched 0 0 1 [2; 2] [2; 1]] [1] false (fun _ => 99))
              0 (mkBatched 0 0 1 [2; 2] [2; 1]) (mkTensor 0 0 [2; 2; 2] [4; 2; 1])
              2 1 [2; 2] [3] (Some Contiguous)
              eq_refl eq_refl eq_refl eq_refl eq_refl eq_refl eq_refl)
    as (w' & t' & Hcall & Hten & Hsz & _).
  - lia.
  - repeat constructor; lia.
  - simpl. lia.
  - by exists w', t'.
Defined.

(** X13. The resize plumbing checks in a fixed order: an unsupported
    memory format is a usage error whatever the rest of the call is; with
    a supported format, the absence of a vmap level, and then an input
    that is a plain tensor or a wrapper of another level, fail an internal
    assertion; and no call fails the last assertion of the function, that
    the input is a wrapper. *)
Theorem resize_plumbing_checks (w : World) (self : TensorRef) (size_ : list Z)
    (fmt : option MemoryFormat) :
  (memory_format_supported fmt = false ->
   resize__plumbing self size_ fmt w
   = Err (torch_check "resize_: batching rule only supports None or Contiguous MemoryFormat")) /\
  (memory_format_supported fmt = true -> dynamic_layers w = [] ->
   resize__plumbing self size_ fmt w = Err (internal_assert "maybe_layer.has_value()")) /\
  (forall cur_level,
     memory_format_supported fmt = true ->
     maybeCurrentDynamicLayer w = Some cur_level ->
     (forall hnd bt, self = BatchedRef hnd -> wrappers w !! hnd = Some bt ->
                     level_ bt <> cur_level) ->
     (forall hnd, self = BatchedRef hnd -> is_Some (wrappers w !! hnd)) ->
     resize__plumbing self size_ fmt w = Err (internal_assert "self_bdim.has_value()")) /\
  resize__plumbing self size_ fmt w <> Err (internal_assert "batched").
Proof.
  split; [| split; [| split]].
  - intros Hfmt. unfold resize__plumbing. by rewrite Hfmt.
  - intros Hfmt Hl. unfold resize__plumbing, maybeCurrentDynamicLayer.
    by rewrite Hfmt, Hl.
  - intros cur_level Hfmt Hlayer Hother Hlive. unfold resize__plumbing.
    rewrite Hfmt, Hlayer. simpl.
    destruct self as [hnd | hnd]; simpl; [done |].
    destruct (Hlive hnd eq_refl) as [bt Hbt]. rewrite Hbt.
    rewrite decide_False by (by apply (Hother hnd)). done.
  - unfold resize__plumbing.
    destruct (memory_format_supported fmt); simpl; [| done].
    destruct (maybeCurrentDynamicLayer w) as [cur_level |]; [| done].
    destruct self as [hnd | hnd]; simpl; [done |].
    destruct (wrappers w !! hnd) as [bt |] eqn:Hbt; simpl; [| done].
    destruct (decide (level_ bt = cur_level)); simpl; [| done].
    destruct (bool_decide (bdim_ bt = 0)) eqn:Hb; simpl; [| done].
    apply bool_decide_eq_true in Hb. rewrite Hb.
    unfold with_excluded_key. simpl.
    destruct (tensors w !! value_ bt) as [t |]; simpl; [| done].
    destruct (size t 0) as [n |] eqn:Hsize; simpl.
    2: { intros [= ->]. unfold size, wrap_strict, maybe_wrap_dim in Hsize.
         repeat (case_match; simplify_eq). }
    unfold vec_insert. destruct (decide _) as [_ | _]; simpl; [| done].
    destruct (resize_ _ _ _) as [w1 |] eqn:Hres; simpl.
    2: { intros [= ->]. unfold resize_ in Hres. repeat (case_match; simplify_eq). }
    destruct (refreshSizesAndStrides _ _) eqn:Href; simpl; [done |].
    intros [= ->]. unfold refreshSizesAndStrides in Href.
    repeat (case_match; simplify_eq).
Qed.

(** A plain tensor under one vmap level. *)
Lemma resize_plumbing_checks_witness :
  resize__plumbing (PlainRef 0) [6] None two_slots
  = Err (internal_assert "self_bdim.has_value()").
Proof.
  refine (proj1 (proj2 (proj2 (resize_plumbing_checks two_slots (PlainRef 0) [6] None)))
            1 eq_refl eq_refl _ _).
  - intros hnd bt Hself. discriminate Hself.
  - intros hnd Hself. discriminate Hself.
Defined.

End ResizeMore.
(** ** Contiguous tensors as segments of their storage *)

Lemma numel_nonneg (l : list Z) : Forall (fun n => 0 <= n) l -> 0 <= numel l.
Proof. induction 1 as [| n l Hn _ IH]; simpl; [lia | nia]. Qed.

Lemma row_size_numel (l : list Z) :
  Forall (fun n => 0 <= n) l -> 0 < numel l -> row_size l = numel l.
Proof.
  induction 1 as [| n l Hn Hl IH]; [done |]. simpl. intros Hpos.
  pose proof (numel_nonneg l Hl).
  rewrite IH by nia. rewrite Z.max_l by nia. reflexivity.
Qed.

Lemma length_all_indices_numel (l : list Z) :
  Forall (fun n => 0 <= n) l -> length (all_indices l) = Z.to_nat (numel l).
Proof.
  induction 1 as [| n l Hn Hl IH]; [done |]. rewrite all_indices_cons. simpl.
  rewrite (length_bind_const _ _ (length (all_indices l)))
    by (intros x; by rewrite length_fmap).
  rewrite length_seqZ, IH. pose proof (numel_nonneg l Hl). nia.
Qed.

(** Every position of a contiguous tensor is the position of an index. *)
Lemma unflatten (l : list Z) (p : Z) :
  Forall (fun n => 0 <= n) l -> 0 <= p < numel l ->
  exists idx, in_range l idx /\ dot idx (contiguous_strides l) = p.
Proof.
  intros Hl. revert p. induction Hl as [| n l Hn Hl IH]; intros p Hp; simpl in *.
  - exists []. split; [constructor | simpl; lia].
  - pose proof (numel_nonneg l Hl).
    assert (0 < numel l) as Hpos by nia.
    destruct (IH (p mod numel l)) as (idx & Hin & Hdot);
      [apply Z.mod_pos_bound; lia |].
    exists (p / numel l :: idx). split.
    + constructor; [| done]. split; [apply Z.div_pos; lia |].
      apply Z.div_lt_upper_bound; [lia | nia].
    + change (contiguous_strides (n :: l)) with (row_size l :: contiguous_strides l).
      simpl. rewrite Hdot, row_size_numel by done.
      pose proof (Z.div_mod p (numel l)). nia.
Qed.

Lemma to_dense_segment (h : heap) (t : Tensor) (data : list Z) :
  strides t = contiguous_strides (sizes t) ->
  Forall (fun n => 0 <= n) (sizes t) ->
  h !! storage t = Some data ->
  (0 < numel (sizes t) ->
   0 <= storage_offset t /\
   storage_offset t + numel (sizes t) <= Z.of_nat (length data)) ->
  to_dense h t
  = Some (mkDense (sizes t)
            (take (Z.to_nat (numel (sizes t))) (drop (Z.to_nat (storage_offset t)) data))).
Proof.
  intros Hc Hnn Hdata Hbounds. unfold to_dense.
  set (seg := take _ _).
  assert (mapM (read h t) (all_indices (sizes t)) = Some seg) as ->; [| done].
  apply mapM_Some. apply Forall2_same_length_lookup_2.
  - rewrite length_all_indices_numel by done. unfold seg.
    rewrite length_take, length_drop.
    destruct (decide (0 < numel (sizes t))) as [Hpos | Hzero]; [| lia].
    destruct (Hbounds Hpos). lia.
  - intros p idx y Hidx Hy.
    apply lookup_lt_Some in Hidx as Hp.
    rewrite length_all_indices_numel in Hp by done.
    destruct Hbounds as [Ho Hlen]; [lia |].
    destruct (unflatten (sizes t) (Z.of_nat p) Hnn) as (idx' & Hin & Hdot); [lia |].
    destruct (lookup_all_indices (sizes t) idx' Hin) as [_ Hlook].
    rewrite Hdot, Nat2Z.id, Hidx in Hlook. injection Hlook as <-.
    unfold read, flat_index. rewrite Hdata, Hc, Hdot. simpl.
    rewrite decide_True by lia.
    unfold seg in Hy. rewrite lookup_take_lt, lookup_drop in Hy by lia.
    rewrite <- Hy. f_equal. lia.
Qed.

(** A well-formed contiguous tensor lies inside its storage. *)
Lemma wf_contiguous_bounds (h : heap) (t : Tensor) :
  wf h t -> strides t = contiguous_strides (sizes t) ->
  exists data,
    h !! storage t = Some data /\
    (0 < numel (sizes t) ->
     0 <= storage_offset t /\
     storage_offset t + numel (sizes t) <= Z.of_nat (length data)).
Proof.
  intros Hwf Hc. destruct (wf_spec h t Hwf) as (_ & Hnn & Hsto & Hread).
  destruct (lookup_lt_is_Some_2 h (storage t) Hsto) as [data Hdata].
  exists data. split; [done |]. intros Hpos.
  assert (forall p, 0 <= p < numel (sizes t) ->
            0 <= storage_offset t + p < Z.of_nat (length data)) as Hpos_in.
  { intros p Hp.
    destruct (unflatten (sizes t) p Hnn Hp) as (idx & Hin & Hdot).
    destruct (Hread idx Hin) as [v Hv].
    unfold read, flat_index in Hv. rewrite Hdata, Hc, Hdot in Hv. simpl in Hv.
    destruct (decide (0 <= storage_offset t + p)); [| done].
    apply lookup_lt_Some in Hv. lia. }
  pose proof (Hpos_in 0). pose proof (Hpos_in (numel (sizes t) - 1)). lia.
Qed.

(** X14. With the batch dimension at the front of a contiguous input, the
    [_unsafe_view] rule returns a tensor, with batch dimension 0, whose
    every slot holds the elements of the same slot of the input, in the
    same row-major order, under the requested sizes; this is what the
    plain [_unsafe_view] gives on that slot. *)
Theorem unsafe_view_batch_rule_slotwise (h : heap) (self : Tensor) (size_ : list Z) :
  wf h self ->
  is_contiguous self = true ->
  0 < dim self ->
  Forall (fun n => 0 <= n) size_ ->
  numel size_ = numel (vec_erase (sizes self) 0) ->
  exists out,
    _unsafe_view_batch_rule self (Some 0) size_ = Ok (out, Some 0) /\
    forall k, 0 <= k < vec_at (sizes self) 0 ->
      exists slot r oslot es,
        select self 0 k = Ok slot /\
        _unsafe_view slot size_ = Ok r /\
        select out 0 k = Ok oslot /\
        to_dense h slot = Some (mkDense (vec_erase (sizes self) 0) es) /\
        to_dense h oslot = Some (mkDense size_ es) /\
        to_dense h r = Some (mkDense size_ es).
Proof.
  intros Hwf Hc Hdim Hnn Hnumel.
  apply bool_decide_eq_true in Hc.
  destruct (wf_spec h self Hwf) as (Hlen & Hnn_self & Hsto & _).
  destruct (wf_contiguous_bounds h self Hwf Hc) as (data & Hdata & Hbounds).
  unfold dim in Hdim.
  destruct (sizes self) as [| B inner] eqn:Hsz; [simpl in Hdim; lia |].
  rewrite vec_erase_0 in Hnumel. rewrite vec_at_0.
  apply Forall_cons in Hnn_self as [HB Hinner].
  change (contiguous_strides (B :: inner))
    with (row_size inner :: contiguous_strides inner) in Hc.
  pose proof (numel_nonneg inner Hinner) as Hm0.
  set (out := mkTensor (storage self) (storage_offset self) (B :: size_)
                (contiguous_strides (B :: size_))).
  exists out. split.
  { unfold _unsafe_view_batch_rule, size, wrap_strict, dim. simpl.
    rewrite Hsz. rewrite decide_False by (simpl; lia).
    rewrite maybe_wrap_dim_nonneg by (simpl; lia). simpl. rewrite vec_at_0.
    unfold vec_insert. rewrite decide_True by lia. simpl.
    change (drop (Z.to_nat 0) size_) with size_.
    unfold _unsafe_view.
    change (forallb _ (B :: size_))
      with (bool_decide (0 <= B) && forallb (fun n => bool_decide (0 <= n)) size_).
    rewrite bool_decide_eq_true_2 by done.
    assert (forallb (fun n => bool_decide (0 <= n)) size_ = true) as ->.
    { apply forallb_forall. intros x Hx. apply bool_decide_eq_true.
      rewrite Forall_forall in Hnn. by apply Hnn, list_elem_of_In. }
    simpl. rewrite Hsz. simpl.
    rewrite bool_decide_eq_true_2 by (by rewrite Hnumel). simpl.
    unfold is_contiguous. rewrite Hsz, Hc. simpl.
    rewrite bool_decide_eq_true_2 by done. reflexivity. }
  intros k Hk.
  set (slot := mkTensor (storage self) (storage_offset self + k * row_size inner)
                 inner (contiguous_strides inner)).
  set (r := mkTensor (storage self) (storage_offset self + k * row_size inner)
              size_ (contiguous_strides size_)).
  set (oslot := mkTensor (storage self) (storage_offset self + k * row_size size_)
                  size_ (contiguous_strides size_)).
  set (es := take (Z.to_nat (numel inner))
               (drop (Z.to_nat (storage_offset self + k * row_size inner)) data)).
  assert (0 < numel inner ->
          0 <= storage_offset self /\
          storage_offset self + B * numel inner <= Z.of_nat (length data) /\
          row_size inner = numel inner /\ row_size size_ = numel inner) as Hfull.
  { intros Hpos. destruct Hbounds as [Ho Hl]; [simpl; nia |]. simpl in Hl.
    split; [done |]. split; [done |].
    split; [by apply row_size_numel |].
    rewrite <- Hnumel. apply row_size_numel; [done | lia]. }
  exists slot, r, oslot, es.
  split.
  { rewrite select_ok by (unfold dim; rewrite ?Hsz, ?vec_at_0; simpl; lia).
    rewrite Hsz, Hc, !vec_erase_0, vec_at_0. reflexivity. }
  split.
  { unfold _unsafe_view. simpl.
    assert (forallb (fun n => bool_decide (0 <= n)) size_ = true) as ->.
    { apply forallb_forall. intros x Hx. apply bool_decide_eq_true.
      rewrite Forall_forall in Hnn. by apply Hnn, list_elem_of_In. }
    simpl. rewrite bool_decide_eq_true_2 by done. simpl.
    unfold is_contiguous. simpl. rewrite bool_decide_eq_true_2 by done.
    reflexivity. }
  split.
  { rewrite select_ok by (unfold dim; simpl; rewrite ?vec_at_0; lia).
    unfold out, oslot. simpl.
    change (contiguous_strides (B :: size_))
      with (row_size size_ :: contiguous_strides size_).
    rewrite !vec_erase_0, !vec_at_0. reflexivity. }
  split.
  { rewrite (to_dense_segment h slot data); try done.
    simpl. intros Hpos. destruct (Hfull Hpos) as (? & ? & -> & _). nia. }
  split.
  { rewrite (to_dense_segment h oslot data); try done.
    - simpl. unfold es. rewrite Hnumel.
      destruct (decide (0 < numel inner)) as [Hpos | Hzero].
      + destruct (Hfull Hpos) as (_ & _ & -> & ->). reflexivity.
      + replace (numel inner) with 0 by lia. reflexivity.
    - simpl. rewrite Hnumel. intros Hpos. destruct (Hfull Hpos) as (? & ? & _ & ->). nia. }
  rewrite (to_dense_segment h r data); try done.
  - simpl. unfold es. by rewrite Hnumel.
  - simpl. rewrite Hnumel. intros Hpos. destruct (Hfull Hpos) as (? & ? & -> & _). nia.
Qed.

(** Two slots of shape [2; 3] viewed as slots of shape [3; 2]. *)
Lemma unsafe_view_batch_rule_slotwise_witness :
  exists out slot r oslot es,
    _unsafe_view_batch_rule (mkTensor 0 0 [2; 2; 3] [6; 3; 1]) (Some 0) [3; 2]
    = Ok (out, Some 0) /\
    select (mkTensor 0 0 [2; 2; 3] [6; 3; 1]) 0 1 = Ok slot /\
    _unsafe_view slot [3; 2] = Ok r /\
    select out 0 1 = Ok oslot /\
    to_dense [[0; 1; 2; 3; 4; 5; 6; 7; 8; 9; 10; 11]] slot = Some (mkDense [2; 3] es) /\
    to_dense [[0; 1; 2; 3; 4; 5; 6; 7; 8; 9; 10; 11]] oslot = Some (mkDense [3; 2] es).
Proof.
  destruct (unsafe_view_batch_rule_slotwise [[0; 1; 2; 3; 4; 5; 6; 7; 8; 9; 10; 11]]
              (mkTensor 0 0 [2; 2; 3] [6; 3; 1]) [3; 2])
    as (out & Hrule & Hslots).
  - reflexivity.
  - reflexivity.
  - reflexivity.
  - repeat constructor; lia.
  - reflexivity.
  - destruct (Hslots 1) as (slot & r & oslot & es & H1 & H2 & H3 & H4 & H5 & _);
      [vm_compute; split; congruence |].
    by exists out, slot, r, oslot, es.
Defined.
(** ** The trace decomposition beyond matrices *)

Lemma dot_app (idx1 idx2 st1 st2 : list Z) :
  length idx1 = length st1 ->
  dot (idx1 ++ idx2) (st1 ++ st2) = dot idx1 st1 + dot idx2 st2.
Proof.
  revert st1. induction idx1 as [| i idx1 IH]; intros [| s st1] Hlen;
    simpl in *; try lia.
  rewrite IH by lia. lia.
Qed.

(** X15. The trace decomposition has no rank check of its own.  On a
    well-formed input of any rank of at least 2 it succeeds with a rank-0
    tensor holding the wrapped sum of all elements whose first two indices
    agree, the elements of the diagonal view over the first two axes;
    beyond rank 2 the native trace rejects the same input.  Below rank 2
    it fails with the index error of the diagonal view, not with the error
    of the native trace. *)
Theorem trace_decomp_any_rank (h : heap) (self : Tensor) :
  (dim self < 2 ->
   trace_decomp self h = Err (index_error "Dimension out of range") /\
   at_trace self h = Err (torch_check "trace: expected a matrix")) /\
  (wf h self -> 2 <= dim self ->
   exists d r h' es,
     diagonal self 0 0 1 = Ok d /\
     sizes d = drop 2 (sizes self)
               ++ [Z.min (vec_at (sizes self) 0) (vec_at (sizes self) 1)] /\
     (forall idx i, length idx = length (drop 2 (sizes self)) ->
        read h d (idx ++ [i]) = read h self (i :: i :: idx)) /\
     mapM (read h d) (all_indices (sizes d)) = Some es /\
     trace_decomp self h = Ok (r, h') /\
     sizes r = [] /\
     read h' r [] = Some (foldl add64 0 es) /\
     (2 < dim self -> at_trace self h = Err (torch_check "trace: expected a matrix"))).
Proof.
  split.
  - intros Hdim. unfold dim in Hdim.
    destruct (sizes self) as [| n0 [| n1 rest]] eqn:Hsz; simpl in Hdim; try lia.
    + split; [| unfold at_trace; by rewrite Hsz].
      unfold trace_decomp, diagonal, dim. rewrite Hsz. reflexivity.
    + split; [| unfold at_trace; by rewrite Hsz].
      unfold trace_decomp, diagonal, dim. rewrite Hsz. reflexivity.
  - intros Hwf Hdim.
    destruct (wf_spec h self Hwf) as (Hlen & Hnn & Hsto & Hread).
    unfold dim in Hdim.
    destruct (sizes self) as [| n0 [| n1 rest]] eqn:Hsz; simpl in Hdim; try lia.
    destruct (strides self) as [| s0 [| s1 st]] eqn:Hst; simpl in Hlen; try lia.
    apply Forall_cons in Hnn as [Hn0 Hnn]. apply Forall_cons in Hnn as [Hn1 Hrest].
    assert (diag_len n0 n1 0 = Z.min n0 n1) as HL by (unfold diag_len; case_decide; lia).
    set (d := mkTensor (storage self) (storage_offset self)
                (rest ++ [Z.min n0 n1]) (st ++ [s0 + s1])).
    assert (diagonal self 0 0 1 = Ok d) as Hdiag.
    { unfold diagonal, dim. rewrite Hsz, Hst.
      rewrite !maybe_wrap_dim_nonneg by (simpl; lia). simpl.
      unfold vec_at, vec_erase. simpl. rewrite HL. unfold d. do 2 f_equal.
      destruct (decide (Z.min n0 n1 = 0)); lia. }
    assert (forall idx i, length idx = length rest ->
              read h d (idx ++ [i]) = read h self (i :: i :: idx)) as Hview.
    { intros idx i Hidx. apply read_flat; [done |].
      unfold flat_index, d. simpl. rewrite Hst, dot_app by lia. simpl. lia. }
    assert (forall idx, in_range (sizes d) idx -> is_Some (read h d idx)) as Hd.
    { intros idx Hidx. unfold d in Hidx. simpl in Hidx. unfold in_range in Hidx.
      apply Forall2_app_inv_r in Hidx as (idx1 & idx2 & H1 & H2 & ->).
      apply Forall2_cons_inv_r in H2 as (i & tl & Hi & Htl & ->).
      apply Forall2_nil_inv_r in Htl as ->.
      rewrite Hview by (by apply Forall2_length in H1).
      apply Hread. constructor; [lia |]. constructor; [lia | done]. }
    assert (is_Some (mapM (read h d) (all_indices (sizes d)))) as [es Hes].
    { apply mapM_is_Some, Forall_forall. intros idx Hidx%elem_of_all_indices.
      by apply Hd. }
    exists d, (new_tensor h [] [foldl add64 0 es]).1,
      (new_tensor h [] [foldl add64 0 es]).2, es.
    split; [exact Hdiag |].
    split; [unfold vec_at; by simpl |].
    split; [exact Hview |].
    split; [exact Hes |].
    split; [unfold trace_decomp; rewrite Hdiag; simpl; unfold sum; by rewrite Hes |].
    split; [done |].
    split.
    { unfold read, flat_index. simpl. by rewrite list_lookup_middle. }
    intros Hrank. unfold dim in Hrank. rewrite Hsz in Hrank.
    unfold at_trace. rewrite Hsz.
    destruct rest; [simpl in Hrank; lia | done].
Qed.

(** Two stacked 2 x 2 matrices laid out with the matrix axes first: the
    decomposition sums both diagonals; and a vector of three elements. *)
Lemma trace_decomp_any_rank_witness :
  (exists r h',
     trace_decomp (mkTensor 0 0 [2; 2; 2] [4; 2; 1]) [[1; 2; 3; 4; 5; 6; 7; 8]] = Ok (r, h') /\
     read h' r [] = Some 18 /\
     at_trace (mkTensor 0 0 [2; 2; 2] [4; 2; 1]) [[1; 2; 3; 4; 5; 6; 7; 8]]
     = Err (torch_check "trace: expected a matrix")) /\
  trace_decomp (mkTensor 0 0 [3] [1]) [[1; 2; 3]]
  = Err (index_error "Dimension out of range").
Proof.
  split.
  - destruct (proj2 (trace_decomp_any_rank [[1; 2; 3; 4; 5; 6; 7; 8]]
                       (mkTensor 0 0 [2; 2; 2] [4; 2; 1])))
      as (d & r & h' & es & Hdiag & _ & _ & Hes & Hcall & _ & Hval & Hnative).
    + reflexivity.
    + vm_compute. congruence.
    + exists r, h'. split; [exact Hcall |]. split; [| apply Hnative; reflexivity].
      rewrite Hval. injection Hdiag as <-. vm_compute in Hes. injection Hes as <-.
      reflexivity.
  - apply (proj1 (trace_decomp_any_rank [[1; 2; 3]] (mkTensor 0 0 [3] [1]))).
    reflexivity.
Defined.
(** ** The rules when no batch dimension is given *)

(** X16. The repeat and flip rules do not look at whether a batch
    dimension is present: called without one they do exactly what they do
    for batch dimension 0, taking axis 0 of the input for the batch axis;
    so does the unsqueeze rule for a non-negative axis.  Hence without a
    batch dimension the unsqueeze rule cannot append a trailing axis: for
    the axis equal to the rank, which the plain operator accepts, it fails
    with an index error. *)
Theorem absent_bdim_acts_as_front (h : heap) (self : Tensor) :
  (forall sizes_, repeat_batch_rule self None sizes_ h
                  = repeat_batch_rule self (Some 0) sizes_ h) /\
  (forall dims, flip_batch_rule self None dims h = flip_batch_rule self (Some 0) dims h) /\
  (forall d, 0 <= d < dim self ->
     unsqueeze_batch_rule self None d = unsqueeze_batch_rule self (Some 0) d) /\
  unsqueeze_batch_rule self None (dim self) = Err (index_error "Dimension out of range") /\
  exists r, unsqueeze self (dim self) = Ok r /\ dim r = dim self + 1.
Proof.
  assert (0 <= dim self) as Hdim0 by (unfold dim; lia).
  split; [done |]. split; [done |]. split; [| split].
  - intros d Hd. unfold unsqueeze_batch_rule, rankWithoutBatchDim. simpl.
    rewrite (maybe_wrap_dim_nonneg d (dim self + 1)) by lia.
    rewrite (maybe_wrap_dim_nonneg d (dim self - 1 + 1)) by lia. reflexivity.
  - unfold unsqueeze_batch_rule, rankWithoutBatchDim. simpl.
    rewrite maybe_wrap_dim_nonneg by lia. simpl.
    unfold unsqueeze, maybe_wrap_dim.
    repeat case_decide; try lia; reflexivity.
  - unfold unsqueeze. rewrite maybe_wrap_dim_nonneg by lia. simpl.
    eexists. split; [reflexivity |]. unfold dim. simpl.
    rewrite length_insert_at. lia.
Qed.

(** A matrix of two rows: axis 1 is accepted and acts on the rows. *)
Lemma absent_bdim_acts_as_front_witness :
  unsqueeze_batch_rule (mkTensor 0 0 [2; 3] [3; 1]) None 1
  = unsqueeze_batch_rule (mkTensor 0 0 [2; 3] [3; 1]) (Some 0) 1.
Proof.
  refine (proj1 (proj2 (proj2 (absent_bdim_acts_as_front []
                                 (mkTensor 0 0 [2; 3] [3; 1])))) 1 _).
  vm_compute. split; congruence.
Defined.
